(** * Synergy Wholesale adapter core (shared/base_server.py)

    A shallow embedding of [SynergyWholesaleBase]: credential resolution
    ([validate_credentials], [add_auth]), the lazily created SOAP client
    ([get_soap_client]), response normalisation ([handle_soap_response]) and
    the orchestrating [safe_soap_call] with its three exception handlers.

    Python dictionaries with string keys are finite maps ([gmap string _]):
    dictionary equality in Python ignores insertion order, and so does every
    property stated below.  Python exceptions are an explicit [outcome];
    the instance attribute [_soap_client] and the network activity of the
    zeep library are an explicit state threaded through every call. *)

From Stdlib Require Import ZArith String Ascii List Lia.
From stdpp Require Import base option gmap strings list fin_maps pretty.

Local Open Scope string_scope.
Set Warnings "-register-all".

(** ** Python values *)

(** The values that travel through the adapter: parameters handed in by the
    tool functions and responses handed back by zeep. *)
Inductive value : Type :=
| VNone
| VBool (b : bool)
| VInt (z : Z)
| VStr (s : string)
| VList (l : list value)
| VDict (d : gmap string value)
    (* dict / OrderedDict *)
| VCompound (d : gmap string value)
    (* zeep CompoundValue; [d] is its [__values__] table *)
| VObject (repr : string) (d : gmap string value).
    (* any other instance, of a class without container methods ([items],
       [__len__], [__contains__], [__getitem__]); [d] is its [__dict__],
       [repr] its [str()] *)

Abbreviation dict := (gmap string value).

(** ** Exceptions and outcomes *)

(** [zeep.exceptions.TransportError] and [zeep.exceptions.Fault] are the two
    classes the handlers of [safe_soap_call] name; they are unrelated
    subclasses of [Exception].  Every other [Exception] is kept with its
    class name and its [str()].  An attribute of a fault is [Some] of its
    string form when [hasattr] holds. *)
Inductive exn : Type :=
| TransportError (msg : string)
| Fault (message : option string) (text : string)
        (code : option string) (detail : option string)
| PyException (type_name : string) (msg : string).

Definition ValueError : string -> exn := PyException "ValueError".
Definition TypeError : string -> exn := PyException "TypeError".
Definition AttributeError : string -> exn := PyException "AttributeError".

(** [str(e)] *)
Definition exn_str (e : exn) : string :=
  match e with
  | TransportError msg => msg
  | Fault _ text _ _ => text
  | PyException _ msg => msg
  end.

(** [type(e).__name__] *)
Definition exn_type_name (e : exn) : string :=
  match e with
  | TransportError _ => "TransportError"
  | Fault _ _ _ _ => "Fault"
  | PyException n _ => n
  end.

Inductive outcome (A : Type) : Type :=
| Returned (a : A)
| Raised (e : exn).
Arguments Returned {A} a.
Arguments Raised {A} e.

(** ** Truthiness and strings *)

(** [s.startswith(p)] *)
Definition startswith (p s : string) : bool := String.prefix p s.

(** [p in s] for two strings *)
Definition str_contains (p s : string) : bool :=
  match String.index 0 p s with Some _ => true | None => false end.

(** [str(v)].  The adapter needs it for the responses that are neither
    containers nor instances, which is why the string form of a list or a
    mapping is only sketched. *)
Definition py_str (v : value) : string :=
  match v with
  | VNone => "None"
  | VBool true => "True"
  | VBool false => "False"
  | VInt z => pretty z
  | VStr s => s
  | VObject repr _ => repr
  | VList _ => "[...]"
  | VDict _ | VCompound _ => "{...}"
  end.

(** ** zeep.helpers.serialize_object *)

(** Modelled from the spec: [zeep.helpers.serialize_object] belongs to the
    zeep library, not to this repository.  The spec describes it as the
    structural serialisation of the nested schema-typed response into a
    plain mapping, "sequences and scalars preserved, nested typed objects
    recursively flattened": lists are serialised element-wise, dictionaries
    and compound values become plain dictionaries of serialised values, and
    every other object is returned as it is. *)
Fixpoint serialize_object (v : value) : value :=
  match v with
  | VList l => VList (map serialize_object l)
  | VDict d => VDict (serialize_object <$> d)
  | VCompound d => VDict (serialize_object <$> d)
  | _ => v
  end.

(** [len(x)]: defined for strings, lists and mappings only. *)
Definition py_len (v : value) : outcome nat :=
  match v with
  | VStr s => Returned (String.length s)
  | VList l => Returned (length l)
  | VDict d | VCompound d => Returned (size d)
  | _ => Raised (TypeError "object has no len()")
  end.

(** [key in x] *)
Definition py_contains (key : string) (v : value) : outcome bool :=
  match v with
  | VDict d | VCompound d => Returned (bool_decide (is_Some (d !! key)))
  | VList l =>
      Returned (existsb (λ x, match x with
                              | VStr s => String.eqb key s
                              | _ => false
                              end) l)
  | VStr s => Returned (str_contains key s)
  | _ => Raised (TypeError "argument is not iterable")
  end.

(** [x[key]] for a string key *)
Definition py_getitem (v : value) (key : string) : outcome value :=
  match v with
  | VDict d | VCompound d =>
      match d !! key with
      | Some x => Returned x
      | None => Raised (PyException "KeyError" key)
      end
  | VList _ => Raised (TypeError "list indices must be integers or slices, not str")
  | VStr _ => Raised (TypeError "string indices must be integers")
  | _ => Raised (TypeError "object is not subscriptable")
  end.

(** [x.get(key, default)] *)
Definition py_get (v : value) (key : string) (dflt : value) : outcome value :=
  match v with
  | VDict d => Returned (default dflt (d !! key))
  | _ => Raised (AttributeError "object has no attribute 'get'")
  end.

(** The mapping unpacked by [**x] *)
Definition py_mapping (v : value) : outcome dict :=
  match v with
  | VDict d | VCompound d => Returned d
  | _ => Raised (TypeError "argument after ** must be a mapping")
  end.

(** ** The outcome monad *)

#[global] Instance outcome_ret : MRet outcome := λ A, @Returned A.
#[global] Instance outcome_bind : MBind outcome := λ A B f m,
  match m with
  | Returned a => f a
  | Raised e => Raised e
  end.

(** ** handle_soap_response *)

(** The body of the [try] of [handle_soap_response]: serialise, turn a
    mapping into a [dict], and evaluate [len(result)] for the debug
    message (the message is formatted whether or not it is printed). *)
Definition serialize_response (response : value) : outcome value :=
  let result := serialize_object response in
  _ ← py_len result;
  mret result.

(** The [except] branch: the manual extraction, which looks at the
    response itself and not at a partly serialised result. *)
Definition manual_extraction (response : value) : value :=
  match response with
  | VCompound d => VDict d
  | VObject _ d => VDict (filter (λ kv, startswith "_" kv.1 = false) d)
  | _ => VDict {[ "result" := VStr (py_str response) ]}
  end.

(** [{"error": error_msg, "status": status, **result}]: the entries of
    [result] are written last and replace the two literal ones. *)
Definition error_tagged (error_msg status : value) (result : dict) : dict :=
  result ∪ <["status" := status]> (<["error" := error_msg]> ∅).

Definition handle_soap_response (response : value) : outcome value :=
  match response with
  | VNone => mret (VDict {[ "error" := VStr "No response received from API" ]})
  | _ =>
      let result :=
        match serialize_response response with
        | Returned r => r
        | Raised _ => manual_extraction response
        end in
      has_status ← py_contains "status" result;
      if (has_status : bool) then
        status ← py_getitem result "status";
        match status with
        | VStr s =>
            if startswith "ERR_" s then
              error_msg ← py_get result "errorMessage"
                                 (VStr "Unknown error occurred");
              fields ← py_mapping result;
              mret (VDict (error_tagged error_msg status fields))
            else mret result
        | _ => mret result
        end
      else mret result
  end.

(** ** Credentials *)

(** Truth value of an [Optional[str]]: [None] and the empty string are
    false. *)
Definition truthy (o : option string) : bool :=
  match o with
  | Some s => negb (String.eqb s EmptyString)
  | None => false
  end.

(** [a or b] on [Optional[str]] *)
Definition py_or (a b : option string) : option string :=
  if truthy a then a else b.

Definition missing_credentials_msg : string :=
  "Missing required credentials. Please provide reseller_id and api_key parameters, "
  ++ "or set SYNERGY_RESELLER_ID and SYNERGY_API_KEY environment variables.".

(** [validate_credentials]; [getenv] is [os.getenv]. *)
Definition validate_credentials (getenv : string → option string)
    (reseller_id api_key : option string) : outcome (string * string) :=
  let final_reseller_id := py_or reseller_id (getenv "SYNERGY_RESELLER_ID") in
  let final_api_key := py_or api_key (getenv "SYNERGY_API_KEY") in
  if negb (truthy final_reseller_id) || negb (truthy final_api_key) then
    Raised (ValueError missing_credentials_msg)
  else
    match final_reseller_id, final_api_key with
    | Some r, Some k => Returned (r, k)
    | _, _ => Raised (ValueError missing_credentials_msg)
    end.

(** [{"resellerID": ..., "apiKey": ..., **params}]: the entries of [params]
    are written last. *)
Definition auth_merge (final_reseller_id final_api_key : string)
    (params : dict) : dict :=
  params ∪ <["apiKey" := VStr final_api_key]>
             (<["resellerID" := VStr final_reseller_id]> ∅).

Definition add_auth (getenv : string → option string) (params : dict)
    (reseller_id api_key : option string) : outcome dict :=
  '(final_reseller_id, final_api_key) ←
     validate_credentials getenv reseller_id api_key;
  mret (auth_merge final_reseller_id final_api_key params).

(** [repr(s)] for a string, as the [%r] format writes it: single quotes,
    or double quotes when the text has a single quote and no double one;
    a backslash before the quote in use and before a backslash; tab,
    newline and carriage return as [\t], [\n] and [\r]; any other control
    character as [\x] and two hexadecimal digits.  Bytes above 127 stand
    for the UTF-8 form of printable characters and are kept. *)
Definition hex_digit (n : nat) : ascii :=
  ascii_of_nat (if (n <? 10)%nat then 48 + n else 87 + n).

Definition repr_char (quote c : ascii) : string :=
  let n := nat_of_ascii c in
  let backslash := ascii_of_nat 92 in
  if Ascii.eqb c quote || (n =? 92)%nat then String backslash (String c EmptyString)
  else if (n =? 9)%nat then String backslash "t"
  else if (n =? 10)%nat then String backslash "n"
  else if (n =? 13)%nat then String backslash "r"
  else if (n <? 32)%nat || (n =? 127)%nat then
    String backslash
      (String "x" (String (hex_digit (n / 16))
                          (String (hex_digit (n mod 16)) EmptyString)))
  else String c EmptyString.

Fixpoint repr_body (quote : ascii) (s : string) : string :=
  match s with
  | EmptyString => EmptyString
  | String c rest => repr_char quote c ++ repr_body quote rest
  end.

Fixpoint has_char (c : ascii) (s : string) : bool :=
  match s with
  | EmptyString => false
  | String c' rest => Ascii.eqb c c' || has_char c rest
  end.

Definition py_repr (s : string) : string :=
  let single := ascii_of_nat 39 in
  let double := ascii_of_nat 34 in
  let quote := if has_char single s && negb (has_char double s)
               then double else single in
  String quote (repr_body quote s ++ String quote EmptyString).

(** The [AttributeError] of zeep's service proxy for a name that is not an
    operation: ["Service has no operation %r" % name]. *)
Definition no_operation_error (method_name : string) : exn :=
  AttributeError ("Service has no operation " ++ py_repr method_name).

(** ** The endpoint, the process state and the call monad *)

(** What a constructed zeep [Client] knows from the WSDL: which operations
    [client.service] has, and the result of [client.get_type] on a
    qualified name, a type that is called with keyword arguments. *)
Record Descriptor : Type := {
  has_operation : string → bool;
  get_type : string → outcome (dict → outcome value)
}.

(** A client object; [client_id] is its identity, the number of the fetch
    that built it. *)
Record Client : Type := {
  client_id : nat;
  wsdl : Descriptor
}.

(** The two ways [method] is called: on a request object, or with the
    merged parameters as keyword arguments. *)
Inductive call_args : Type :=
| Positional (request_obj : value)
| Keywords (kwargs : dict).

(** Everything outside the adapter: the process environment, [int] on the
    timeout string, the outcome of the [n]-th construction of a [Client]
    (the descriptor fetch) and of the [n]-th remote round trip. *)
Record world : Type := {
  getenv : string → option string;
  py_int : string → outcome Z;
  fetch_wsdl : nat → Z → outcome Descriptor;
  remote : nat → string → call_args → outcome value
}.

(** [soap_client] is [self._soap_client]; the two other fields record the
    network activity so far. *)
Record state : Type := {
  soap_client : option Client;
  fetches : nat;
  calls : list (string * call_args)
}.

Definition initial_state : state :=
  {| soap_client := None; fetches := 0; calls := [] |}.

Definition M (A : Type) : Type := state → outcome A * state.

#[global] Instance M_ret : MRet M := λ A a st, (Returned a, st).
#[global] Instance M_bind : MBind M := λ A B f m st,
  match m st with
  | (Returned a, st') => f a st'
  | (Raised e, st') => (Raised e, st')
  end.

Definition lift {A} (o : outcome A) : M A := λ st, (o, st).

(** [try: body except Exception as e: handler(e)] *)
Definition try_except {A} (body : M A) (handler : exn → M A) : M A := λ st,
  match body st with
  | (Raised e, st') => handler e st'
  | r => r
  end.

Definition read_soap_client : M (option Client) := λ st, (Returned (soap_client st), st).

Definition write_soap_client (c : Client) : M unit := λ st,
  (Returned (), {| soap_client := Some c; fetches := fetches st; calls := calls st |}).

Definition record_call (method_name : string) (args : call_args)
    (st : state) : state :=
  {| soap_client := soap_client st;
     fetches := fetches st;
     calls := calls st ++ [(method_name, args)] |}.

Section Adapter.
Context (w : world).

(** [Client(WSDL_URL, transport=..., settings=...)]: one descriptor
    fetch, counted whether or not it succeeds. *)
Definition new_Client (timeout : Z) : M Client := λ st,
  let st' := {| soap_client := soap_client st;
                fetches := S (fetches st);
                calls := calls st |} in
  match fetch_wsdl w (fetches st) timeout with
  | Returned d => (Returned {| client_id := fetches st; wsdl := d |}, st')
  | Raised e => (Raised e, st')
  end.

(** One remote round trip for [method_name], recorded in [calls]. *)
Definition remote_call (method_name : string) (args : call_args) : M value :=
  λ st,
    (remote w (length (calls st)) method_name args,
     record_call method_name args st).

(** [getattr(client.service, method_name)] *)
Definition service_getattr (client : Client) (method_name : string)
    : M (call_args → M value) :=
  if has_operation (wsdl client) method_name
  then mret (remote_call method_name)
  else lift (Raised (no_operation_error method_name)).

Definition connect_error (e : exn) : exn :=
  ValueError ("Could not connect to Synergy Wholesale API: " ++ exn_str e).

(** The guarded block of [get_soap_client], run when no client is
    stored; it ends with the client it has just stored, which is what
    [return self._soap_client] then reads. *)
Definition initialize_soap_client : M Client :=
  try_except
    (timeout ← lift (py_int w (default "30" (getenv w "API_TIMEOUT")));
     c ← new_Client timeout;
     _ ← write_soap_client c;
     mret c)
    (λ e, lift (Raised (connect_error e))).

Definition get_soap_client : M Client :=
  cached ← read_soap_client;
  match cached with
  | None => initialize_soap_client
  | Some c => mret c
  end.

Definition request_type_qname (method_name : string) : string :=
  "{urn:WholesaleSystem}" ++ method_name ++ "Request".

(** The inner [try] of [safe_soap_call] with its handler. *)
Definition typed_or_direct (client : Client) (method : call_args → M value)
    (method_name : string) (auth_params : dict) : M value :=
  try_except
    (request_type ← lift (get_type (wsdl client) (request_type_qname method_name));
     request_obj ← lift (request_type auth_params);
     method (Positional request_obj))
    (λ type_error, method (Keywords auth_params)).

(** The outer [try] of [safe_soap_call]. *)
Definition safe_soap_call_body (method_name : string) (params : dict)
    (reseller_id api_key : option string) : M value :=
  client ← get_soap_client;
  method ← service_getattr client method_name;
  auth_params ← lift (add_auth (getenv w) params reseller_id api_key);
  response ← typed_or_direct client method method_name auth_params;
  lift (handle_soap_response response).

Definition transport_envelope (method_name msg : string) : dict :=
  <["suggestion" := VStr "Check network connectivity and API endpoint"]>
    (<["method" := VStr method_name]>
       (<["error" := VStr ("Transport error: " ++ msg)]> ∅)).

Definition fault_envelope (method_name : string)
    (message : option string) (text : string)
    (code detail : option string) : dict :=
  let fault_detail :=
    <["method" := VStr method_name]>
      (<["error" := VStr ("SOAP Fault: " ++ default text message)]> ∅) in
  let fault_detail :=
    match code with
    | Some c => <["fault_code" := VStr c]> fault_detail
    | None => fault_detail
    end in
  match detail with
  | Some d => <["fault_detail" := VStr d]> fault_detail
  | None => fault_detail
  end.

Definition unexpected_envelope (method_name : string) (e : exn) : dict :=
  <["error_type" := VStr (exn_type_name e)]>
    (<["method" := VStr method_name]>
       (<["error" := VStr (exn_str e)]> ∅)).

(** The three [except] clauses, tried in the order they are written. *)
Definition error_envelope (method_name : string) (e : exn) : dict :=
  match e with
  | TransportError msg => transport_envelope method_name msg
  | Fault message text code detail =>
      fault_envelope method_name message text code detail
  | PyException _ _ => unexpected_envelope method_name e
  end.

Definition safe_soap_call (method_name : string) (params : dict)
    (reseller_id api_key : option string) : M value :=
  try_except
    (safe_soap_call_body method_name params reseller_id api_key)
    (λ e, mret (VDict (error_envelope method_name e))).

End Adapter.

(** ** Overlapping calls of get_soap_client *)

(** The code holds no lock, so a second caller can run between the test
    [self._soap_client is None] of a first caller and its assignment.  A
    caller is at one of three program points or has finished; each step is
    one uninterrupted piece of [get_soap_client]: the test, the guarded
    block, and [return self._soap_client]. *)
Inductive caller : Type :=
| AtTest
| AtInit
| AtReturn
| Finished (r : outcome (option Client)).

Definition caller_step (w : world) (c : caller) (st : state) : caller * state :=
  match c with
  | AtTest =>
      match soap_client st with
      | None => (AtInit, st)
      | Some _ => (AtReturn, st)
      end
  | AtInit =>
      match initialize_soap_client w st with
      | (Returned _, st') => (AtReturn, st')
      | (Raised e, st') => (Finished (Raised e), st')
      end
  | AtReturn => (Finished (Returned (soap_client st)), st)
  | Finished r => (Finished r, st)
  end.

(** A schedule names, step by step, the caller that moves next. *)
Fixpoint run_schedule (w : world) (schedule : list nat)
    (callers : list caller) (st : state) : list caller * state :=
  match schedule with
  | [] => (callers, st)
  | i :: rest =>
      match callers !! i with
      | Some c =>
          let '(c', st') := caller_step w c st in
          run_schedule w rest (<[i := c']> callers) st'
      | None => run_schedule w rest callers st
      end
  end.

(** [n] calls one after the other. *)
Fixpoint get_soap_client_seq (w : world) (n : nat) (st : state)
    : list (outcome Client) * state :=
  match n with
  | O => ([], st)
  | S n' =>
      let '(r, st') := get_soap_client w st in
      let '(rs, st'') := get_soap_client_seq w n' st' in
      (r :: rs, st'')
  end.

(** ** Sample endpoints *)

Definition echo_type (kwargs : dict) : outcome value := Returned (VCompound kwargs).

(** A descriptor with every operation and every request type. *)
Definition full_descriptor : Descriptor :=
  {| has_operation := λ _, true;
     get_type := λ _, Returned echo_type |}.

(** A descriptor with every operation and no request type. *)
Definition untyped_descriptor : Descriptor :=
  {| has_operation := λ _, true;
     get_type := λ q, Raised (PyException "LookupError" q) |}.

Definition ok_response : value :=
  VCompound (<["status" := VStr "OK"]> (<["balance" := VInt 100]> ∅)).

(** No credentials in the environment; every fetch and every call
    succeeds. *)
Definition bare_world : world :=
  {| getenv := λ _, None;
     py_int := λ _, Returned 30%Z;
     fetch_wsdl := λ _ _, Returned full_descriptor;
     remote := λ _ _ _, Returned ok_response |}.

Definition env_XY (name : string) : option string :=
  if String.eqb name "SYNERGY_RESELLER_ID" then Some "X"
  else if String.eqb name "SYNERGY_API_KEY" then Some "Y"
  else None.

(** Credentials in the environment; the first round trip fails at the
    transport layer, later ones succeed. *)
Definition flaky_world : world :=
  {| getenv := env_XY;
     py_int := λ _, Returned 30%Z;
     fetch_wsdl := λ _ _, Returned full_descriptor;
     remote := λ n _ _,
       match n with
       | O => Raised (TransportError "timed out")
       | S _ => Returned ok_response
       end |}.

(** Credentials in the environment; no request types, and every round trip
    ends in a SOAP fault. *)
Definition faulty_world : world :=
  {| getenv := env_XY;
     py_int := λ _, Returned 30%Z;
     fetch_wsdl := λ _ _, Returned untyped_descriptor;
     remote := λ _ _ _,
       Raised (Fault (Some "Invalid domain") "Invalid domain" (Some "ERR_DOMAIN") (Some "None")) |}.

(** The first descriptor fetch fails, later ones succeed. *)
Definition late_world : world :=
  {| getenv := env_XY;
     py_int := λ _, Returned 30%Z;
     fetch_wsdl := λ n _,
       match n with
       | O => Raised (TransportError "unreachable")
       | S _ => Returned full_descriptor
       end;
     remote := λ _ _ _, Returned ok_response |}.

(** ** Plain values *)

(** A plain value holds no zeep object and no other instance: scalars,
    lists and dictionaries only. *)
Fixpoint plain (v : value) : bool :=
  match v with
  | VList l => forallb plain l
  | VDict d => map_fold (λ _ x b, plain x && b) true d
  | VCompound _ | VObject _ _ => false
  | _ => true
  end.

Fixpoint vsize (v : value) : nat :=
  match v with
  | VList l => S (foldr (λ x n, vsize x + n)%nat 0%nat l)
  | VDict d | VCompound d | VObject _ d =>
      S (map_fold (λ _ x n, vsize x + n)%nat 0%nat d)
  | _ => 1
  end.

(** Mappings whose values serialisation leaves alone. *)
Definition settled (d : dict) : Prop :=
  ∀ k x, d !! k = Some x → serialize_object x = x.

(** ** The statements compared with the code *)

(** The status convention in the spec's words, on the mapping obtained by
    the primary serialisation: a string [status] that starts with [ERR_]
    re-tags the mapping, which keeps its fields and gains [error], the
    mapping's [errorMessage] or "Unknown error occurred"; any other mapping
    passes through unchanged. *)
Definition status_convention (d : dict) : dict :=
  match d !! "status" with
  | Some (VStr s) =>
      if startswith "ERR_" s
      then error_tagged
             (default (VStr "Unknown error occurred") (d !! "errorMessage"))
             (VStr s) d
      else d
  | _ => d
  end.

(** Credential resolution in the spec's words: a field is obtained from the
    explicit argument when that is present, and otherwise from the
    environment default when that is present; the empty string counts as
    absent. *)
Definition present (o : option string) : option string :=
  match o with
  | Some s => if String.eqb s EmptyString then None else Some s
  | None => None
  end.

Definition resolve_field (explicit dflt : option string) : option string :=
  match present explicit with
  | Some s => Some s
  | None => present dflt
  end.

(** Claim C1 read literally: the call raises, and the record of network
    activity is as it was before the call. *)
Definition raises_before_network (w : world) (method_name : string)
    (params : dict) (reseller_id api_key : option string) (st : state) : Prop :=
  ∃ e st',
    safe_soap_call w method_name params reseller_id api_key st = (Raised e, st')
    ∧ fetches st' = fetches st ∧ calls st' = calls st.

(** Claim C2 read literally: the merged parameters carry the resolved
    credentials under the two reserved keys. *)
Definition credentials_win (getenv : string → option string) (params : dict)
    (reseller_id api_key : option string) : Prop :=
  ∀ r k merged,
    validate_credentials getenv reseller_id api_key = Returned (r, k) →
    add_auth getenv params reseller_id api_key = Returned merged →
    merged !! "resellerID" = Some (VStr r) ∧ merged !! "apiKey" = Some (VStr k).

(** Claim C6 read literally, for [n] callers that start together and run
    under [schedule]: one descriptor fetch in total, and one client object
    returned to all of them. *)
Definition bootstrapped_once (w : world) (n : nat) (schedule : list nat) : Prop :=
  let '(callers, st) := run_schedule w schedule (replicate n AtTest) initial_state in
  fetches st = 1%nat
  ∧ ∃ c, ∀ x, x ∈ callers → x = Finished (Returned (Some c)).

Definition sample_params : dict := {[ "domainName" := VStr "example.com" ]}.

Definition sample_auth : dict :=
  <["resellerID" := VStr "X"]> (<["apiKey" := VStr "Y"]> sample_params).

(** The raw mappings of the spec's status-convention examples. *)
Definition raw_ERR_X_msg : dict :=
  <["status" := VStr "ERR_X"]>
    (<["errorMessage" := VStr "msg"]> (<["other" := VInt 1]> ∅)).

Definition raw_ERR_X : dict := {[ "status" := VStr "ERR_X" ]}.

Definition raw_ERR_X_with_error : dict :=
  <["error" := VStr "original"]> raw_ERR_X_msg.

(** Caller-supplied parameters that use a reserved key. *)
Definition colliding_params : dict := {[ "resellerID" := VStr "intruder" ]}.

(** An environment in which every variable is set to the empty string. *)
Definition env_empty (name : string) : option string := Some EmptyString.

(** A descriptor whose only operation is [balanceQuery], and an endpoint
    that serves it. *)
Definition balance_only_descriptor : Descriptor :=
  {| has_operation := String.eqb "balanceQuery";
     get_type := λ q, Raised (PyException "LookupError" q) |}.

Definition narrow_world : world :=
  {| getenv := env_XY;
     py_int := λ _, Returned 30%Z;
     fetch_wsdl := λ _ _, Returned balance_only_descriptor;
     remote := λ _ _ _, Returned ok_response |}.

(** ** The tool functions of the servers *)

(** Each server module holds one [SynergyWholesaleBase], whose state is the
    [state] above, and its tools hand their parameters to
    [safe_soap_call].  The clock ([datetime.now()]) and [str.upper] are
    taken as given. *)

(** [WSDL_URL], which zeep keeps as [client.wsdl.location]. *)
Definition WSDL_URL : string := "https://api.synergywholesale.com/server.php?wsdl".

(** Truth value of an [Optional[int]] *)
Definition truthy_int (o : option Z) : bool :=
  match o with
  | Some z => negb (z =? 0)%Z
  | None => false
  end.

(** Truth value of an [Optional[Dict]] *)
Definition truthy_dict (o : option dict) : bool :=
  match o with
  | Some d => negb (bool_decide (d = ∅))
  | None => false
  end.

(** [a or b] for an optional mapping and a mapping *)
Definition dict_or (a : option dict) (b : dict) : dict :=
  match a with
  | Some d => if truthy_dict a then d else b
  | None => b
  end.

Definition error_result (msg : string) : value :=
  VDict {[ "error" := VStr msg ]}.

Section Tools.
Context (w : world) (upper : string → string).

(** *** discovery: get_domain_pricing *)

(** [_pricing_cache] is the module-level dictionary; [now] is
    [datetime.now().isoformat()] at the moment of the assignment. *)
Definition get_domain_pricing (now : string) (reseller_id api_key : option string)
    (force_refresh : bool) (cache : dict) (st : state)
    : outcome value * (dict * state) :=
  let cached :=
    default (error_result "No pricing data available") (cache !! "pricing") in
  if force_refresh || negb (bool_decide (is_Some (cache !! "pricing"))) then
    match safe_soap_call w "getDomainPricing" ∅ reseller_id api_key st with
    | (Returned result, st') =>
        match py_contains "error" result with
        | Returned has_error =>
            if has_error
            then (Returned cached, (cache, st'))
            else (Returned result,
                  (<["timestamp" := VStr now]> (<["pricing" := result]> cache), st'))
        | Raised e => (Raised e, (cache, st'))
        end
    | (Raised e, st') => (Raised e, (cache, st'))
    end
  else (Returned cached, (cache, st)).

(** *** discovery: register_domain *)

Definition register_domain (domain_name : string) (years : Z)
    (nameservers : list string) (registrant_contact : dict)
    (technical_contact admin_contact billing_contact : option dict)
    (id_protection : bool) (eligibility_fields : option dict)
    (reseller_id api_key : option string) : M value :=
  let params : dict :=
    <["registrant_contact" := VDict registrant_contact]>
      (<["nameServers" := VList (VStr <$> nameservers)]>
         (<["years" := VInt years]>
            (<["domainName" := VStr domain_name]> ∅))) in
  let params :=
    <["technical_contact" := VDict (dict_or technical_contact registrant_contact)]>
      params in
  let params :=
    <["admin_contact" := VDict (dict_or admin_contact registrant_contact)]> params in
  let params :=
    <["billing_contact" := VDict (dict_or billing_contact registrant_contact)]>
      params in
  let params :=
    if id_protection then <["idProtection" := VStr "on"]> params else params in
  let params :=
    match eligibility_fields with
    | Some fields =>
        if truthy_dict eligibility_fields
        then <["eligibilityFields" := VDict fields]> params
        else params
    | None => params
    end in
  safe_soap_call w "registerDomain" params reseller_id api_key.

(** *** dns: add_dns_record, update_dns_record *)

(** [t in ["MX", "SRV"]] *)
Definition is_MX_or_SRV (t : string) : bool :=
  String.eqb t "MX" || String.eqb t "SRV".

Definition add_dns_record (domain_name record_type name content : string)
    (ttl : Z) (priority : option Z) (reseller_id api_key : option string)
    : M value :=
  let params : dict :=
    <["TTL" := VInt ttl]>
      (<["content" := VStr content]>
         (<["name" := VStr name]>
            (<["type" := VStr (upper record_type)]>
               (<["domainName" := VStr domain_name]> ∅)))) in
  match is_MX_or_SRV (upper record_type), priority with
  | true, Some p =>
      safe_soap_call w "addDNSRecord" (<["priority" := VInt p]> params)
                     reseller_id api_key
  | true, None =>
      mret (error_result ("Priority is required for " ++ record_type ++ " records"))
  | false, _ => safe_soap_call w "addDNSRecord" params reseller_id api_key
  end.

Definition update_dns_record (domain_name record_id : string)
    (record_type name content : option string) (ttl priority : option Z)
    (reseller_id api_key : option string) : M value :=
  let params : dict :=
    <["recordID" := VStr record_id]> (<["domainName" := VStr domain_name]> ∅) in
  let params :=
    match record_type with
    | Some t => if truthy record_type then <["type" := VStr (upper t)]> params
                else params
    | None => params
    end in
  let params :=
    match name with Some n => <["name" := VStr n]> params | None => params end in
  let params :=
    match content with Some c => <["content" := VStr c]> params | None => params end in
  let params :=
    match ttl with Some t => <["TTL" := VInt t]> params | None => params end in
  let params :=
    match priority with Some p => <["priority" := VInt p]> params | None => params end in
  if (size params =? 2)%nat
  then mret (error_result "At least one field to update must be provided")
  else safe_soap_call w "updateDNSRecord" params reseller_id api_key.

(** *** dns: add_email_forward, delete_email_forward *)

Definition add_email_forward (domain_name source_email destination_email : string)
    (reseller_id api_key : option string) : M value :=
  let source_email :=
    if negb (str_contains "@" source_email)
    then source_email ++ "@" ++ domain_name
    else source_email in
  safe_soap_call w "addMailForward"
    (<["destinationEmail" := VStr destination_email]>
       (<["sourceEmail" := VStr source_email]>
          (<["domainName" := VStr domain_name]> ∅)))
    reseller_id api_key.

Definition delete_email_forward (domain_name source_email : string)
    (reseller_id api_key : option string) : M value :=
  let source_email :=
    if negb (str_contains "@" source_email)
    then source_email ++ "@" ++ domain_name
    else source_email in
  safe_soap_call w "deleteMailForward"
    (<["sourceEmail" := VStr source_email]>
       (<["domainName" := VStr domain_name]> ∅))
    reseller_id api_key.

(** *** transfers: get_transfer_status *)

Definition get_transfer_status (domain_name : string)
    (reseller_id api_key : option string) : M value :=
  result ← safe_soap_call w "domainInfo" {[ "domainName" := VStr domain_name ]}
                          reseller_id api_key;
  has_error ← lift (py_contains "error" result);
  if negb has_error then
    status ← lift (py_get result "status" VNone);
    transfer_status ← lift (py_get result "transferStatus" VNone);
    transfer_date ← lift (py_get result "transferDate" VNone);
    registrar ← lift (py_get result "registrar" VNone);
    locked ← lift (py_get result "locked" VNone);
    mret (VDict (<["locked" := locked]>
                   (<["current_registrar" := registrar]>
                      (<["transfer_date" := transfer_date]>
                         (<["transfer_status" := transfer_status]>
                            (<["status" := status]>
                               (<["domain" := VStr domain_name]> ∅)))))))
  else mret result.

(** *** account: get_invoice_list, test_api_connectivity *)

(** [now_year] is [datetime.now().year]. *)
Definition get_invoice_list (now_year : Z) (year month : option Z)
    (reseller_id api_key : option string) : M value :=
  let params : dict :=
    match year with
    | Some y => if truthy_int year then {[ "year" := VInt y ]}
                else {[ "year" := VInt now_year ]}
    | None => {[ "year" := VInt now_year ]}
    end in
  let params :=
    match month with
    | Some m =>
        if truthy_int month && (1 <=? m)%Z && (m <=? 12)%Z
        then <["month" := VInt m]> params
        else params
    | None => params
    end in
  safe_soap_call w "getInvoiceList" params reseller_id api_key.

(** [now] is [datetime.now().isoformat()]. *)
Definition test_api_connectivity (now : string)
    (reseller_id api_key : option string) : M value :=
  try_except
    (result ← safe_soap_call w "balanceQuery" ∅ reseller_id api_key;
     has_error ← lift (py_contains "error" result);
     if (has_error : bool) then
       message ← lift (py_getitem result "error");
       _ ← get_soap_client w;
       mret (VDict (<["suggestion" :=
                        VStr "Check your credentials and IP whitelist settings"]>
                      (<["api_endpoint" := VStr WSDL_URL]>
                         (<["message" := message]>
                            (<["status" := VStr "error"]> ∅)))))
     else
       _ ← get_soap_client w;
       balance ← lift (py_get result "balance" VNone);
       mret (VDict (<["timestamp" := VStr now]>
                      (<["account_balance" := balance]>
                         (<["api_version" := VStr "v3.11"]>
                            (<["api_endpoint" := VStr WSDL_URL]>
                               (<["message" := VStr "API connection successful"]>
                                  (<["status" := VStr "connected"]> ∅))))))))
    (λ e,
       mret (VDict (<["suggestion" :=
                        VStr "Verify network connectivity and WSDL availability"]>
                      (<["error_type" := VStr (exn_type_name e)]>
                         (<["error" := VStr (exn_str e)]>
                            (<["status" := VStr "failed"]> ∅)))))).

End Tools.

Section MoreTools.
Context (w : world).

(** *** discovery: bulk_check_domain; portfolio: bulk_domain_info *)

Definition bulk_check_domain (domain_names : list string)
    (reseller_id api_key : option string) : M value :=
  if (30 <? length domain_names)%nat
  then mret (error_result "Maximum 30 domains can be checked at once")
  else safe_soap_call w "bulkCheckDomain"
         {[ "domainNameList" := VList (VStr <$> domain_names) ]}
         reseller_id api_key.

Definition bulk_domain_info (domain_names : list string)
    (reseller_id api_key : option string) : M value :=
  if (50 <? length domain_names)%nat
  then mret (error_result "Maximum 50 domains can be queried at once")
  else safe_soap_call w "bulkDomainInfo"
         {[ "domainNameList" := VList (VStr <$> domain_names) ]}
         reseller_id api_key.

(** *** portfolio: update_nameservers, update_contacts *)

Definition update_nameservers (domain_name : string) (nameservers : list string)
    (reseller_id api_key : option string) : M value :=
  if (length nameservers <? 2)%nat || (6 <? length nameservers)%nat
  then mret (error_result "Must provide between 2 and 6 nameservers")
  else safe_soap_call w "updateNameServers"
         (<["nameServers" := VList (VStr <$> nameservers)]>
            (<["domainName" := VStr domain_name]> ∅))
         reseller_id api_key.

Definition update_contacts (domain_name : string)
    (registrant_contact technical_contact admin_contact billing_contact : option dict)
    (reseller_id api_key : option string) : M value :=
  let params : dict := {[ "domainName" := VStr domain_name ]} in
  let params :=
    match registrant_contact with
    | Some c => if truthy_dict registrant_contact
                then <["registrant_contact" := VDict c]> params else params
    | None => params
    end in
  let params :=
    match technical_contact with
    | Some c => if truthy_dict technical_contact
                then <["technical_contact" := VDict c]> params else params
    | None => params
    end in
  let params :=
    match admin_contact with
    | Some c => if truthy_dict admin_contact
                then <["admin_contact" := VDict c]> params else params
    | None => params
    end in
  let params :=
    match billing_contact with
    | Some c => if truthy_dict billing_contact
                then <["billing_contact" := VDict c]> params else params
    | None => params
    end in
  if (size params =? 1)%nat
  then mret (error_result "At least one contact must be provided for update")
  else safe_soap_call w "updateContacts" params reseller_id api_key.

(** *** dns: add_url_forward *)

(** [t in ["301", "302", "frame"]] *)
Definition is_forward_type (t : string) : bool :=
  String.eqb t "301" || String.eqb t "302" || String.eqb t "frame".

Definition add_url_forward (domain_name subdomain destination_url : string)
    (forward_type : string) (forward_title : option string)
    (reseller_id api_key : option string) : M value :=
  if negb (is_forward_type forward_type)
  then mret (error_result "forward_type must be '301', '302', or 'frame'")
  else
    let params : dict :=
      <["type" := VStr forward_type]>
        (<["destinationURL" := VStr destination_url]>
           (<["subdomain" := VStr subdomain]>
              (<["domainName" := VStr domain_name]> ∅))) in
    let params :=
      match forward_title with
      | Some title =>
          if String.eqb forward_type "frame" && truthy forward_title
          then <["title" := VStr title]> params else params
      | None => params
      end in
    safe_soap_call w "addSimpleURLForward" params reseller_id api_key.

(** *** transfers: is_domain_transferrable, transfer_domain *)

Definition is_domain_transferrable (domain_name : string)
    (auth_code : option string) (reseller_id api_key : option string) : M value :=
  let params : dict := {[ "domainName" := VStr domain_name ]} in
  let params :=
    match auth_code with
    | Some code => if truthy auth_code then <["authCode" := VStr code]> params
                   else params
    | None => params
    end in
  safe_soap_call w "isDomainTransferrable" params reseller_id api_key.

Definition transfer_domain (domain_name auth_code : string) (years : option Z)
    (id_protection : bool) (reseller_id api_key : option string) : M value :=
  let params : dict :=
    <["authCode" := VStr auth_code]> (<["domainName" := VStr domain_name]> ∅) in
  let params :=
    match years with
    | Some y => if truthy_int years then <["years" := VInt y]> params else params
    | None => params
    end in
  let params :=
    if id_protection then <["idProtection" := VStr "on"]> params else params in
  safe_soap_call w "transferDomain" params reseller_id api_key.

End MoreTools.

(** [str.upper] on ASCII text, for the sample runs. *)
Definition ascii_upper (c : ascii) : ascii :=
  let n := nat_of_ascii c in
  if (97 <=? n)%nat && (n <=? 122)%nat then ascii_of_nat (n - 32) else c.

Fixpoint upper_ascii (s : string) : string :=
  match s with
  | EmptyString => EmptyString
  | String c rest => String (ascii_upper c) (upper_ascii rest)
  end.

(** An endpoint whose descriptor cannot be fetched. *)
Definition dead_world : world :=
  {| getenv := env_XY;
     py_int := λ _, Returned 30%Z;
     fetch_wsdl := λ _ _, Raised (TransportError "unreachable");
     remote := λ _ _ _, Returned ok_response |}.

(** Credentials in the environment and every request type known; the
    first round trip raises [e], the later ones answer. *)
Definition retry_world (e : exn) : world :=
  {| getenv := env_XY;
     py_int := λ _, Returned 30%Z;
     fetch_wsdl := λ _ _, Returned full_descriptor;
     remote := λ n _ _,
       match n with
       | O => Raised e
       | S _ => Returned ok_response
       end |}.

(** Text made of ASCII characters only. *)
Fixpoint is_ascii_text (s : string) : bool :=
  match s with
  | EmptyString => true
  | String c rest => (nat_of_ascii c <? 128)%nat && is_ascii_text rest
  end.

(** * Theory *)

Example normalize_none :
  handle_soap_response VNone
  = Returned (VDict {[ "error" := VStr "No response received from API" ]}).
Proof. reflexivity. Qed.

Example normalize_int :
  handle_soap_response (VInt 42) = Returned (VDict {[ "result" := VStr "42" ]}).
Proof. vm_compute. reflexivity. Qed.

Example normalize_list_with_status :
  handle_soap_response (VList [VStr "status"])
  = Raised (TypeError "list indices must be integers or slices, not str").
Proof. reflexivity. Qed.

(** ** Induction on values *)

Lemma vsize_lookup (d : dict) k x :
  d !! k = Some x → (vsize x ≤ map_fold (λ _ y n, vsize y + n) 0 d)%nat.
Proof.
  revert k x. induction d as [|i y m Hi Hfirst IH] using map_first_key_ind;
    intros k x Hk.
  - by rewrite lookup_empty in Hk.
  - rewrite map_fold_insert_first_key by done.
    destruct (decide (i = k)) as [->|Hne].
    + rewrite lookup_insert_eq in Hk. injection Hk as ->. lia.
    + rewrite lookup_insert_ne in Hk by done. specialize (IH _ _ Hk). lia.
Qed.

Lemma vsize_elem (l : list value) x :
  x ∈ l → (vsize x ≤ foldr (λ y n, vsize y + n) 0 l)%nat.
Proof.
  induction l as [|y l IH]; intros Hx.
  - by apply elem_of_nil in Hx.
  - apply elem_of_cons in Hx as [->|Hx]; simpl; [lia|].
    specialize (IH Hx). lia.
Qed.

(** Induction on values, with the hypothesis available for every element of
    a list and every entry of a mapping. *)
Lemma value_nested_ind (P : value → Prop) :
  P VNone →
  (∀ b, P (VBool b)) →
  (∀ z, P (VInt z)) →
  (∀ s, P (VStr s)) →
  (∀ l, Forall P l → P (VList l)) →
  (∀ d, map_Forall (λ _, P) d → P (VDict d)) →
  (∀ d, map_Forall (λ _, P) d → P (VCompound d)) →
  (∀ r d, map_Forall (λ _, P) d → P (VObject r d)) →
  ∀ v, P v.
Proof.
  intros HN HB HI HS HL HD HC HO v.
  remember (vsize v) as n eqn:Hn. revert v Hn.
  induction n as [n IH] using lt_wf_ind. intros v ->.
  destruct v as [| | | |l|d|d|r d]; auto.
  - apply HL, Forall_forall. intros x Hx.
    apply (IH (vsize x)); [|done]. pose proof (vsize_elem _ _ Hx). simpl. lia.
  - apply HD. intros k x Hk.
    apply (IH (vsize x)); [|done]. pose proof (vsize_lookup _ _ _ Hk). simpl. lia.
  - apply HC. intros k x Hk.
    apply (IH (vsize x)); [|done]. pose proof (vsize_lookup _ _ _ Hk). simpl. lia.
  - apply HO. intros k x Hk.
    apply (IH (vsize x)); [|done]. pose proof (vsize_lookup _ _ _ Hk). simpl. lia.
Qed.

Lemma plain_dict_lookup (d : dict) k x :
  plain (VDict d) = true → d !! k = Some x → plain x = true.
Proof.
  simpl. revert k x.
  induction d as [|i y m Hi Hfirst IH] using map_first_key_ind; intros k x Hp Hk.
  - by rewrite lookup_empty in Hk.
  - rewrite map_fold_insert_first_key in Hp by done.
    apply andb_true_iff in Hp as [Hy Hm].
    destruct (decide (i = k)) as [->|Hne].
    + rewrite lookup_insert_eq in Hk. by injection Hk as ->.
    + rewrite lookup_insert_ne in Hk by done. eauto.
Qed.

Lemma plain_dict_intro (d : dict) :
  (∀ k x, d !! k = Some x → plain x = true) → plain (VDict d) = true.
Proof.
  simpl. induction d as [|i y m Hi Hfirst IH] using map_first_key_ind; intros H.
  - by rewrite map_fold_empty.
  - rewrite map_fold_insert_first_key by done.
    apply andb_true_iff. split.
    + apply (H i). by rewrite lookup_insert_eq.
    + apply IH. intros k x Hk. apply (H k).
      rewrite lookup_insert_ne; [done|]. intros ->. congruence.
Qed.

(** Serialisation changes nothing in a plain value. *)
Lemma serialize_object_plain v : plain v = true → serialize_object v = v.
Proof.
  induction v as [| | | |l IH|d IH|d IH|r d IH] using value_nested_ind;
    intros Hp; try done.
  - simpl. f_equal. simpl in Hp. rewrite forallb_forall in Hp.
    induction l as [|x l IHl]; [done|]. simpl.
    apply Forall_cons in IH as [Hx Hl]. f_equal.
    + apply Hx, Hp. by left.
    + apply IHl; [done|]. intros y Hy. apply Hp. by right.
  - simpl. f_equal. apply map_eq. intros k. rewrite lookup_fmap.
    destruct (d !! k) as [x|] eqn:Hk; [|done]. simpl. f_equal.
    apply (IH k x Hk). by eapply plain_dict_lookup.
Qed.

(** The result of serialisation is plain, except for instances that are
    neither lists nor mappings, which are passed through. *)
Lemma serialize_object_idemp v :
  serialize_object (serialize_object v) = serialize_object v.
Proof.
  induction v as [| | | |l IH|d IH|d IH|r d IH] using value_nested_ind;
    try done.
  - simpl. f_equal. rewrite map_map.
    induction l as [|x l IHl]; [done|]. simpl.
    apply Forall_cons in IH as [Hx Hl]. f_equal; auto.
  - simpl. f_equal. apply map_eq. intros k. rewrite !lookup_fmap.
    destruct (d !! k) as [x|] eqn:Hk; [|done]. simpl. f_equal. by apply (IH k x).
  - simpl. f_equal. apply map_eq. intros k. rewrite !lookup_fmap.
    destruct (d !! k) as [x|] eqn:Hk; [|done]. simpl. f_equal. by apply (IH k x).
Qed.

(** ** Normalisation of mappings *)

(** On a dictionary, [handle_soap_response] is the status convention
    applied to the serialised entries; it never raises. *)
Lemma handle_soap_response_dict (d : dict) :
  handle_soap_response (VDict d)
  = Returned (VDict (status_convention (serialize_object <$> d))).
Proof.
  unfold handle_soap_response, serialize_response, status_convention. simpl.
  set (d' := serialize_object <$> d).
  destruct (d' !! "status") as [st|] eqn:Hst; simpl; [|reflexivity].
  destruct st; try reflexivity.
  destruct (startswith "ERR_" s); reflexivity.
Qed.

(** A zeep compound value is normalised like the dictionary of its
    fields. *)
Lemma handle_soap_response_compound (d : dict) :
  handle_soap_response (VCompound d) = handle_soap_response (VDict d).
Proof. reflexivity. Qed.

Lemma handle_soap_response_plain (d : dict) :
  plain (VDict d) = true →
  handle_soap_response (VDict d) = Returned (VDict (status_convention d)).
Proof.
  intros Hp. rewrite handle_soap_response_dict.
  pose proof (serialize_object_plain _ Hp) as Hs. simpl in Hs.
  injection Hs as Hs. by rewrite Hs.
Qed.

Lemma settled_fmap (d : dict) : settled d → serialize_object <$> d = d.
Proof.
  intros Hd. apply map_eq. intros k. rewrite lookup_fmap.
  destruct (d !! k) as [x|] eqn:Hk; [|done]. simpl. f_equal. by apply (Hd k).
Qed.

Lemma settled_serialized (d : dict) : settled (serialize_object <$> d).
Proof.
  intros k x. rewrite lookup_fmap.
  destruct (d !! k) as [y|]; simpl; [|done].
  intros [= <-]. apply serialize_object_idemp.
Qed.

Lemma settled_error_tagged (msg st : value) (d : dict) :
  settled d → serialize_object msg = msg → serialize_object st = st →
  settled (error_tagged msg st d).
Proof.
  intros Hd Hmsg Hst k x. unfold error_tagged.
  rewrite lookup_union_Some_raw. intros [Hk|[_ Hk]]; [by apply (Hd k)|].
  rewrite lookup_insert in Hk. case_decide; [by injection Hk as <-|].
  rewrite lookup_insert in Hk. case_decide; [by injection Hk as <-|].
  by rewrite lookup_empty in Hk.
Qed.

Lemma settled_status_convention (d : dict) :
  settled d → settled (status_convention d).
Proof.
  intros Hd. unfold status_convention.
  destruct (d !! "status") as [[| | |s| | | |]|]; try done.
  destruct (startswith "ERR_" s); [|done].
  apply settled_error_tagged; [done| |done].
  destruct (d !! "errorMessage") as [x|] eqn:Hx; simpl; [|done]. by apply (Hd _ _ Hx).
Qed.

Lemma error_tagged_lookup_original (msg st : value) (d : dict) k x :
  d !! k = Some x → error_tagged msg st d !! k = Some x.
Proof. intros Hk. unfold error_tagged. by apply lookup_union_Some_l. Qed.

Lemma error_tagged_lookup_error (msg st : value) (d : dict) :
  d !! "error" = None → error_tagged msg st d !! "error" = Some msg.
Proof.
  intros Hk. unfold error_tagged. rewrite lookup_union_r by done.
  rewrite lookup_insert_ne by done. by rewrite lookup_insert_eq.
Qed.

Lemma error_tagged_lookup_other (msg st : value) (d : dict) k :
  k ≠ "error" → k ≠ "status" → error_tagged msg st d !! k = d !! k.
Proof.
  intros H1 H2. unfold error_tagged.
  destruct (d !! k) as [x|] eqn:Hk.
  - by apply lookup_union_Some_l.
  - rewrite lookup_union_r by done.
    rewrite !lookup_insert_ne by done. apply lookup_empty.
Qed.

Lemma error_tagged_twice (msg st : value) (d : dict) :
  error_tagged msg st (error_tagged msg st d) = error_tagged msg st d.
Proof.
  unfold error_tagged. rewrite <- (assoc_L (∪)). by rewrite (idemp_L (∪)).
Qed.

Lemma status_convention_err (d : dict) s :
  d !! "status" = Some (VStr s) → startswith "ERR_" s = true →
  status_convention d
  = error_tagged (default (VStr "Unknown error occurred") (d !! "errorMessage"))
                 (VStr s) d.
Proof. intros Hst Hs. unfold status_convention. by rewrite Hst, Hs. Qed.

Lemma status_convention_pass (d : dict) :
  (∀ s, d !! "status" = Some (VStr s) → startswith "ERR_" s = false) →
  status_convention d = d.
Proof.
  intros H. unfold status_convention.
  destruct (d !! "status") as [[| | |s| | | |]|]; try done.
  by rewrite (H s).
Qed.

(** The status convention is a projection. *)
Lemma status_convention_idemp (d : dict) :
  status_convention (status_convention d) = status_convention d.
Proof.
  destruct (d !! "status") as [st|] eqn:Hst.
  - destruct st as [| | |s| | | |];
      try (rewrite !(status_convention_pass d);
           [done|intros ? ?; congruence..]).
    destruct (startswith "ERR_" s) eqn:Hs.
    + rewrite (status_convention_err d s) by done.
      rewrite (status_convention_err _ s);
        [|by apply error_tagged_lookup_original|done].
      rewrite error_tagged_lookup_other by done.
      apply error_tagged_twice.
    + rewrite !(status_convention_pass d); [done|intros ? ?; congruence..].
  - rewrite !(status_convention_pass d); [done|intros ? ?; congruence..].
Qed.

(** Whatever [handle_soap_response] returns for a mapping is returned
    unchanged when it is normalised again. *)
Lemma normalized_mapping_fixed (d : dict) :
  handle_soap_response (VDict (status_convention (serialize_object <$> d)))
  = Returned (VDict (status_convention (serialize_object <$> d))).
Proof.
  rewrite handle_soap_response_dict.
  rewrite settled_fmap
    by apply settled_status_convention, settled_serialized.
  by rewrite status_convention_idemp.
Qed.

(** Every field of an error-tagged response is a field of the raw mapping,
    serialised, or the added [error]. *)
Lemma status_convention_keeps_fields (d : dict) k x :
  d !! k = Some x →
  status_convention (serialize_object <$> d) !! k = Some (serialize_object x).
Proof.
  intros Hk.
  assert ((serialize_object <$> d) !! k = Some (serialize_object x)) as Hk'
    by (by rewrite lookup_fmap, Hk).
  unfold status_convention.
  destruct ((serialize_object <$> d) !! "status") as [[| | |s| | | |]|]; try done.
  destruct (startswith "ERR_" s); [|done].
  by apply error_tagged_lookup_original.
Qed.

(** C5: the status convention re-tags a response and keeps its fields.  The
    raw mapping [{status: "ERR_X", errorMessage: "msg", other: 1}] is
    normalised to the same mapping with [error: "msg"] added, and the raw
    mapping [{status: "ERR_X"}], which has no [errorMessage], to a mapping
    that holds [error: "Unknown error occurred"] next to its [status]. *)
Theorem status_convention_examples :
  handle_soap_response (VDict raw_ERR_X_msg)
  = Returned
      (VDict (<["status" := VStr "ERR_X"]>
                (<["errorMessage" := VStr "msg"]>
                   (<["other" := VInt 1]> (<["error" := VStr "msg"]> ∅)))))
  ∧ handle_soap_response (VDict raw_ERR_X)
    = Returned
        (VDict (<["status" := VStr "ERR_X"]>
                  (<["error" := VStr "Unknown error occurred"]> ∅))).
Proof. split; vm_compute; reflexivity. Qed.

(** C7: normalisation is idempotent on plain mappings: for a mapping [m] of
    scalars, lists and dictionaries, [handle_soap_response] returns a
    mapping [r], and normalising [r] again returns [r]. *)
Theorem handle_soap_response_idempotent (m : dict) :
  plain (VDict m) = true →
  ∃ r, handle_soap_response (VDict m) = Returned (VDict r)
       ∧ handle_soap_response (VDict r) = Returned (VDict r).
Proof.
  intros Hp. exists (status_convention m). split.
  - by apply handle_soap_response_plain.
  - pose proof (normalized_mapping_fixed m) as Hfix.
    pose proof (serialize_object_plain _ Hp) as Hs. simpl in Hs.
    injection Hs as Hs. by rewrite Hs in Hfix.
Qed.

Lemma handle_soap_response_idempotent_witness :
  ∃ r, handle_soap_response (VDict raw_ERR_X_msg) = Returned (VDict r)
       ∧ handle_soap_response (VDict r) = Returned (VDict r).
Proof. apply handle_soap_response_idempotent. vm_compute. reflexivity. Defined.

(** C10: when the raw mapping has an [ERR_]-prefixed [status] and already
    holds an [error] field, the output keeps that original [error] value
    (as serialised, hence unchanged when it is plain), whatever
    [errorMessage] says: the original fields are written over the
    synthetic ones. *)
Theorem original_error_field_kept (m : dict) (s : string) (e : value) :
  m !! "status" = Some (VStr s) →
  startswith "ERR_" s = true →
  m !! "error" = Some e →
  ∃ d, handle_soap_response (VDict m) = Returned (VDict d)
       ∧ d = error_tagged
               (default (VStr "Unknown error occurred")
                        ((serialize_object <$> m) !! "errorMessage"))
               (VStr s) (serialize_object <$> m)
       ∧ d !! "error" = Some (serialize_object e)
       ∧ (plain e = true → d !! "error" = Some e).
Proof.
  intros Hst Hs He. eexists. split; [apply handle_soap_response_dict|].
  assert (status_convention (serialize_object <$> m) !! "error"
          = Some (serialize_object e)) as Herr
    by (by apply status_convention_keeps_fields).
  split; [|split; [done|]].
  - apply status_convention_err; [|done]. by rewrite lookup_fmap, Hst.
  - intros Hp. by rewrite Herr, serialize_object_plain.
Qed.

Lemma original_error_field_kept_witness :
  ∃ d, handle_soap_response (VDict raw_ERR_X_with_error) = Returned (VDict d)
       ∧ d = error_tagged
               (default (VStr "Unknown error occurred")
                        ((serialize_object <$> raw_ERR_X_with_error) !! "errorMessage"))
               (VStr "ERR_X") (serialize_object <$> raw_ERR_X_with_error)
       ∧ d !! "error" = Some (serialize_object (VStr "original"))
       ∧ (plain (VStr "original") = true → d !! "error" = Some (VStr "original")).
Proof.
  apply (original_error_field_kept raw_ERR_X_with_error "ERR_X" (VStr "original"));
    vm_compute; reflexivity.
Defined.

(** ** Credentials *)

Lemma truthy_present (o : option string) :
  truthy o = match present o with Some _ => true | None => false end.
Proof. destruct o as [s|]; [|done]. simpl. by destruct (String.eqb s EmptyString). Qed.

Lemma present_py_or (a b : option string) :
  present (py_or a b) = resolve_field a b.
Proof.
  unfold py_or, resolve_field. rewrite truthy_present.
  destruct (present a) as [s|] eqn:Ha; [|done].
  rewrite Ha. done.
Qed.

Lemma present_Some (o : option string) s : present o = Some s → o = Some s.
Proof.
  destruct o as [x|]; [|done]. simpl.
  destruct (String.eqb x EmptyString); [done|]. by intros [= ->].
Qed.

(** [validate_credentials] resolves each field as the spec words it. *)
Lemma validate_credentials_spec getenv (reseller_id api_key : option string) :
  validate_credentials getenv reseller_id api_key
  = match resolve_field reseller_id (getenv "SYNERGY_RESELLER_ID"),
          resolve_field api_key (getenv "SYNERGY_API_KEY") with
    | Some r, Some k => Returned (r, k)
    | _, _ => Raised (ValueError missing_credentials_msg)
    end.
Proof.
  unfold validate_credentials. rewrite !truthy_present, !present_py_or.
  destruct (resolve_field reseller_id _) as [r|] eqn:Hr; [|done].
  destruct (resolve_field api_key _) as [k|] eqn:Hk; [|done].
  simpl. rewrite <- present_py_or in Hr, Hk.
  by rewrite (present_Some _ _ Hr), (present_Some _ _ Hk).
Qed.

(** C8: explicit values take precedence over the environment defaults,
    field by field.  With explicit ("A", "B") and defaults ("X", "Y") the
    resolved pair is ("A", "B"); an explicit half is merged with the
    default for the other half; in general the call returns exactly the
    two fields resolved explicit-first, and it raises exactly when one of
    the two fields can be obtained from neither source. *)
Theorem validate_credentials_precedence :
  validate_credentials env_XY (Some "A") (Some "B") = Returned ("A", "B")
  ∧ validate_credentials env_XY (Some "A") None = Returned ("A", "Y")
  ∧ validate_credentials env_XY None (Some "B") = Returned ("X", "B")
  ∧ (∀ getenv reseller_id api_key r k,
       validate_credentials getenv reseller_id api_key = Returned (r, k)
       ↔ resolve_field reseller_id (getenv "SYNERGY_RESELLER_ID") = Some r
         ∧ resolve_field api_key (getenv "SYNERGY_API_KEY") = Some k)
  ∧ (∀ getenv reseller_id api_key,
       (∃ e, validate_credentials getenv reseller_id api_key = Raised e)
       ↔ resolve_field reseller_id (getenv "SYNERGY_RESELLER_ID") = None
         ∨ resolve_field api_key (getenv "SYNERGY_API_KEY") = None).
Proof.
  split; [reflexivity|]. split; [reflexivity|]. split; [reflexivity|].
  split; intros getenv rid key *; rewrite validate_credentials_spec;
    destruct (resolve_field rid _) as [r'|], (resolve_field key _) as [k'|].
  all: try (split; [intros [= -> ->]; done | intros [[= ->] [= ->]]; done]).
  all: try (split; [discriminate | intros [? ?]; discriminate]).
  all: try (split; [intros [e He]; discriminate | intros [?|?]; discriminate]).
  all: split; [intros _; auto | intros _; eauto].
Qed.

Lemma validate_credentials_precedence_witness :
  validate_credentials env_XY (Some "A") None = Returned ("A", "Y").
Proof.
  apply (proj2 (proj1 (proj2 (proj2 (proj2 validate_credentials_precedence)))
                  env_XY (Some "A") None "A" "Y")).
  split; reflexivity.
Defined.

(** C9: an explicit credential equal to the empty string is treated as
    absent.  The call behaves as if the argument had not been given: the
    environment default is used for that field, and when the environment
    value is empty or unset too the call raises the missing-credentials
    error. *)
Theorem empty_explicit_is_absent getenv :
  (∀ api_key, validate_credentials getenv (Some EmptyString) api_key
              = validate_credentials getenv None api_key)
  ∧ (∀ reseller_id, validate_credentials getenv reseller_id (Some EmptyString)
                    = validate_credentials getenv reseller_id None)
  ∧ (∀ api_key x k,
       present (getenv "SYNERGY_RESELLER_ID") = Some x →
       resolve_field api_key (getenv "SYNERGY_API_KEY") = Some k →
       validate_credentials getenv (Some EmptyString) api_key = Returned (x, k))
  ∧ (∀ reseller_id r y,
       resolve_field reseller_id (getenv "SYNERGY_RESELLER_ID") = Some r →
       present (getenv "SYNERGY_API_KEY") = Some y →
       validate_credentials getenv reseller_id (Some EmptyString) = Returned (r, y))
  ∧ (∀ api_key,
       present (getenv "SYNERGY_RESELLER_ID") = None →
       validate_credentials getenv (Some EmptyString) api_key
       = Raised (ValueError missing_credentials_msg))
  ∧ (∀ reseller_id,
       present (getenv "SYNERGY_API_KEY") = None →
       validate_credentials getenv reseller_id (Some EmptyString)
       = Raised (ValueError missing_credentials_msg)).
Proof.
  split; [|split; [|split; [|split; [|split]]]].
  - intros key. rewrite !validate_credentials_spec. reflexivity.
  - intros rid. rewrite !validate_credentials_spec. reflexivity.
  - intros key x k Hx Hk. rewrite validate_credentials_spec.
    unfold resolve_field at 1. simpl. by rewrite Hx, Hk.
  - intros rid r y Hr Hy. rewrite validate_credentials_spec, Hr.
    unfold resolve_field. simpl. by rewrite Hy.
  - intros key Hx. rewrite validate_credentials_spec.
    unfold resolve_field at 1. simpl. by rewrite Hx.
  - intros rid Hy. rewrite validate_credentials_spec.
    unfold resolve_field at 2. simpl. rewrite Hy.
    by destruct (resolve_field rid _).
Qed.

Lemma empty_explicit_is_absent_witness :
  validate_credentials env_XY (Some EmptyString) (Some "B") = Returned ("X", "B")
  ∧ validate_credentials env_empty (Some EmptyString) (Some "B")
    = Raised (ValueError missing_credentials_msg).
Proof.
  split.
  - apply (proj1 (proj2 (proj2 (empty_explicit_is_absent env_XY)))
             (Some "B") "X" "B"); reflexivity.
  - apply (proj1 (proj2 (proj2 (proj2 (proj2
             (empty_explicit_is_absent env_empty)))))
             (Some "B")); reflexivity.
Defined.

(** ** Merged parameters *)

Lemma auth_merge_lookup_param (r k : string) (params : dict) name v :
  params !! name = Some v → auth_merge r k params !! name = Some v.
Proof. intros H. unfold auth_merge. by apply lookup_union_Some_l. Qed.

Lemma auth_merge_lookup_resellerID (r k : string) (params : dict) :
  params !! "resellerID" = None →
  auth_merge r k params !! "resellerID" = Some (VStr r).
Proof.
  intros H. unfold auth_merge. rewrite lookup_union_r by done.
  rewrite lookup_insert_ne by done. apply lookup_insert_eq.
Qed.

Lemma auth_merge_lookup_apiKey (r k : string) (params : dict) :
  params !! "apiKey" = None →
  auth_merge r k params !! "apiKey" = Some (VStr k).
Proof.
  intros H. unfold auth_merge. rewrite lookup_union_r by done.
  apply lookup_insert_eq.
Qed.

Lemma auth_merge_lookup_other (r k : string) (params : dict) name :
  name ≠ "resellerID" → name ≠ "apiKey" →
  auth_merge r k params !! name = params !! name.
Proof.
  intros H1 H2. unfold auth_merge.
  destruct (params !! name) as [x|] eqn:Hn.
  - by apply lookup_union_Some_l.
  - rewrite lookup_union_r by done.
    rewrite !lookup_insert_ne by done. apply lookup_empty.
Qed.

Lemma add_auth_resolved getenv (params : dict) reseller_id api_key r k :
  validate_credentials getenv reseller_id api_key = Returned (r, k) →
  add_auth getenv params reseller_id api_key = Returned (auth_merge r k params).
Proof. intros H. unfold add_auth. by rewrite H. Qed.

Lemma add_auth_unresolved getenv (params : dict) reseller_id api_key e :
  validate_credentials getenv reseller_id api_key = Raised e →
  add_auth getenv params reseller_id api_key = Raised e.
Proof. intros H. unfold add_auth. by rewrite H. Qed.

(** C2 as stated fails: with the caller-supplied mapping
    [{resellerID: "intruder"}] and resolved credentials ("A", "B"), the
    merged parameters carry "intruder" under [resellerID]. *)
Lemma credentials_win_counterexample :
  add_auth env_XY colliding_params (Some "A") (Some "B")
  = Returned (<["resellerID" := VStr "intruder"]> (<["apiKey" := VStr "B"]> ∅))
  ∧ ¬ credentials_win env_XY colliding_params (Some "A") (Some "B").
Proof.
  split; [vm_compute; reflexivity|].
  intros H. destruct (H "A" "B" _ eq_refl eq_refl) as [Hr _].
  vm_compute in Hr. discriminate Hr.
Qed.

(** C2, amended: the merged parameters contain every caller-supplied entry
    unchanged, so a caller-supplied [resellerID] or [apiKey] wins over the
    resolved credential; the resolved credential values are carried for
    exactly those reserved keys that the caller's mapping does not
    contain, and no other key is added. *)
Theorem add_auth_caller_params_win getenv (params : dict)
    (reseller_id api_key : option string) (r k : string) :
  validate_credentials getenv reseller_id api_key = Returned (r, k) →
  ∃ merged,
    add_auth getenv params reseller_id api_key = Returned merged
    ∧ (∀ name v, params !! name = Some v → merged !! name = Some v)
    ∧ (params !! "resellerID" = None → merged !! "resellerID" = Some (VStr r))
    ∧ (params !! "apiKey" = None → merged !! "apiKey" = Some (VStr k))
    ∧ (∀ name, name ≠ "resellerID" → name ≠ "apiKey" →
               merged !! name = params !! name).
Proof.
  intros Hv. exists (auth_merge r k params).
  split; [by apply add_auth_resolved|].
  split; [intros name v; apply auth_merge_lookup_param|].
  split; [apply auth_merge_lookup_resellerID|].
  split; [apply auth_merge_lookup_apiKey|].
  intros name. apply auth_merge_lookup_other.
Qed.

Lemma add_auth_caller_params_win_witness :
  ∃ merged,
    add_auth env_XY colliding_params (Some "A") (Some "B") = Returned merged
    ∧ (∀ name v, colliding_params !! name = Some v → merged !! name = Some v)
    ∧ (colliding_params !! "resellerID" = None →
       merged !! "resellerID" = Some (VStr "A"))
    ∧ (colliding_params !! "apiKey" = None → merged !! "apiKey" = Some (VStr "B"))
    ∧ (∀ name, name ≠ "resellerID" → name ≠ "apiKey" →
               merged !! name = colliding_params !! name).
Proof.
  apply (add_auth_caller_params_win env_XY colliding_params (Some "A") (Some "B")).
  reflexivity.
Defined.

(** ** The client *)

Ltac unfold_M :=
  unfold mbind, M_bind, mret, M_ret, lift, try_except,
    read_soap_client, write_soap_client in *.

Lemma get_soap_client_cached w st c :
  soap_client st = Some c → get_soap_client w st = (Returned c, st).
Proof. intros H. unfold get_soap_client. unfold_M. by rewrite H. Qed.

(** What the guarded block does: at most one fetch, no remote call; the
    client it returns is the one it has stored, and a failure stores
    nothing. *)
Lemma initialize_soap_client_spec w st r st' :
  initialize_soap_client w st = (r, st') →
  calls st' = calls st
  ∧ (fetches st ≤ fetches st' ≤ S (fetches st))%nat
  ∧ match r with
    | Returned c => soap_client st' = Some c ∧ fetches st' = S (fetches st)
    | Raised e => soap_client st' = soap_client st
    end.
Proof.
  unfold initialize_soap_client, new_Client. unfold_M.
  destruct (py_int w _) as [t|e0]; simpl.
  - destruct (fetch_wsdl w (fetches st) t) as [d|e1]; simpl;
      intros [= <- <-]; simpl; repeat split; lia.
  - intros [= <- <-]. repeat split; lia.
Qed.

Lemma get_soap_client_spec w st r st' :
  get_soap_client w st = (r, st') →
  calls st' = calls st
  ∧ (fetches st ≤ fetches st' ≤ S (fetches st))%nat
  ∧ (is_Some (soap_client st) → st' = st)
  ∧ (∀ c, r = Returned c → soap_client st' = Some c)
  ∧ (∀ c, soap_client st' = Some c → r = Returned c).
Proof.
  unfold get_soap_client. unfold mbind, M_bind, read_soap_client at 1.
  destruct (soap_client st) as [c|] eqn:Hc.
  - unfold_M. intros [= <- <-]. repeat split; try lia; try done.
    + intros c' [= <-]. done.
    + intros c' Hc'. congruence.
  - intros Hi. destruct (initialize_soap_client_spec _ _ _ _ Hi) as (H1 & H2 & H3).
    split; [done|]. split; [done|]. split; [by intros [? ?]|].
    destruct r as [c|e]; split.
    + intros c' [= <-]. tauto.
    + intros c' Hc'. destruct H3 as [H3 _]. congruence.
    + intros c' ?. done.
    + intros c' Hc'. congruence.
Qed.

(** A caller that is not interrupted runs [get_soap_client]. *)
Lemma caller_alone w st :
  let '(c1, st1) := caller_step w AtTest st in
  let '(c2, st2) := caller_step w c1 st1 in
  let '(c3, st3) := caller_step w c2 st2 in
  match get_soap_client w st with
  | (Returned c, st') => c3 = Finished (Returned (Some c)) ∧ st3 = st'
  | (Raised e, st') => c3 = Finished (Raised e) ∧ st3 = st'
  end.
Proof.
  unfold get_soap_client. unfold mbind, M_bind, read_soap_client at 1. simpl.
  destruct (soap_client st) as [c|] eqn:Hc; simpl.
  - unfold mret, M_ret. by rewrite Hc.
  - destruct (initialize_soap_client w st) as [[c|e] st'] eqn:Hi; simpl; [|done].
    destruct (initialize_soap_client_spec _ _ _ _ Hi) as (_ & _ & Hs & _).
    by rewrite Hs.
Qed.

Lemma get_soap_client_seq_cached w n st c :
  soap_client st = Some c →
  get_soap_client_seq w n st = (replicate n (Returned c), st).
Proof.
  intros Hc. induction n as [|n IH]; [done|].
  simpl. rewrite (get_soap_client_cached _ _ _ Hc), IH. done.
Qed.

(** C6 as stated fails.  Two callers that both pass the test before either
    assigns each fetch the descriptor: two fetches, and two different
    client objects returned. *)
Lemma bootstrapped_once_counterexample :
  (let '(callers, st) :=
     run_schedule bare_world [0; 1; 0; 0; 1; 1]%nat [AtTest; AtTest] initial_state in
   fetches st = 2%nat
   ∧ ∃ d0 d1, callers = [Finished (Returned (Some {| client_id := 0; wsdl := d0 |}));
                         Finished (Returned (Some {| client_id := 1; wsdl := d1 |}))])
  ∧ ¬ bootstrapped_once bare_world 2 [0; 1; 0; 0; 1; 1]%nat.
Proof.
  split.
  - vm_compute. split; [reflexivity|]. eexists _, _. reflexivity.
  - unfold bootstrapped_once. vm_compute. intros [H _]. discriminate H.
Qed.

(** A failed fetch stores nothing, so the next call fetches again. *)
Lemma failed_fetch_is_repeated :
  ∃ e c st, get_soap_client_seq late_world 2 initial_state
            = ([Raised e; Returned c], st)
            ∧ fetches st = 2%nat ∧ client_id c = 1%nat.
Proof. vm_compute. eexists _, _, _. repeat split. Qed.

(** C6, amended: for calls that do not overlap.  When the first call in
    the process succeeds it has made exactly one descriptor fetch and
    stored the client it returns; each of any number of later calls
    returns that same client object and changes nothing: no further fetch,
    no remote call. *)
Theorem get_soap_client_init_once w c st1 n :
  get_soap_client w initial_state = (Returned c, st1) →
  fetches st1 = 1%nat
  ∧ soap_client st1 = Some c
  ∧ get_soap_client_seq w n st1 = (replicate n (Returned c), st1).
Proof.
  intros H1. unfold get_soap_client in H1.
  unfold mbind, M_bind, read_soap_client at 1 in H1. simpl in H1.
  destruct (initialize_soap_client_spec _ _ _ _ H1) as (_ & _ & Hs & Hf).
  split; [done|]. split; [done|]. by apply get_soap_client_seq_cached.
Qed.

Lemma get_soap_client_init_once_witness :
  ∃ c st1,
    get_soap_client bare_world initial_state = (Returned c, st1)
    ∧ fetches st1 = 1%nat
    ∧ soap_client st1 = Some c
    ∧ get_soap_client_seq bare_world 10 st1 = (replicate 10 (Returned c), st1).
Proof.
  eexists _, _. split; [reflexivity|].
  apply (get_soap_client_init_once bare_world _ _ 10). reflexivity.
Defined.

(** ** The inner try: typed request, direct call *)

Section TypedOrDirect.
Context (w : world) (client : Client) (method_name : string)
        (auth_params : dict) (st : state).

Let qname := request_type_qname method_name.
Let method := remote_call w method_name.

(** The lookup of the request type fails: one call, the direct one. *)
Lemma typed_or_direct_no_type e :
  get_type (wsdl client) qname = Raised e →
  typed_or_direct client method method_name auth_params st
  = (remote w (length (calls st)) method_name (Keywords auth_params),
     record_call method_name (Keywords auth_params) st).
Proof.
  intros Hty. unfold typed_or_direct. unfold_M. fold qname. by rewrite Hty.
Qed.

(** The construction of the request object fails: one call, the direct
    one. *)
Lemma typed_or_direct_no_object ty e :
  get_type (wsdl client) qname = Returned ty →
  ty auth_params = Raised e →
  typed_or_direct client method method_name auth_params st
  = (remote w (length (calls st)) method_name (Keywords auth_params),
     record_call method_name (Keywords auth_params) st).
Proof.
  intros Hty Hobj. unfold typed_or_direct. unfold_M. fold qname.
  by rewrite Hty, Hobj.
Qed.

(** The typed round trip returns: one call, the typed one. *)
Lemma typed_or_direct_typed ty request_obj response :
  get_type (wsdl client) qname = Returned ty →
  ty auth_params = Returned request_obj →
  remote w (length (calls st)) method_name (Positional request_obj)
  = Returned response →
  typed_or_direct client method method_name auth_params st
  = (Returned response, record_call method_name (Positional request_obj) st).
Proof.
  intros Hty Hobj Hr. unfold typed_or_direct. unfold_M. fold qname.
  rewrite Hty, Hobj. unfold method, remote_call. by rewrite Hr.
Qed.

(** The typed round trip raises: the handler of the inner [try] catches
    the failure of the round trip as well, and the operation is called a
    second time, directly. *)
Lemma typed_or_direct_second_call ty request_obj e :
  get_type (wsdl client) qname = Returned ty →
  ty auth_params = Returned request_obj →
  remote w (length (calls st)) method_name (Positional request_obj)
  = Raised e →
  typed_or_direct client method method_name auth_params st
  = (remote w (S (length (calls st))) method_name (Keywords auth_params),
     record_call method_name (Keywords auth_params)
       (record_call method_name (Positional request_obj) st)).
Proof.
  intros Hty Hobj Hr. unfold typed_or_direct. unfold_M. fold qname.
  rewrite Hty, Hobj. unfold method, remote_call. rewrite Hr. simpl.
  rewrite length_app. simpl. by rewrite Nat.add_1_r.
Qed.

(** In every case one or two round trips are made, nothing is fetched and
    the stored client is left alone. *)
Lemma typed_or_direct_calls r st' :
  typed_or_direct client method method_name auth_params st = (r, st') →
  soap_client st' = soap_client st
  ∧ fetches st' = fetches st
  ∧ (∃ a, calls st' = (calls st ++ [(method_name, a)])%list
     ∨ ∃ b, calls st' = (calls st ++ [(method_name, a); (method_name, b)])%list).
Proof.
  destruct (get_type (wsdl client) qname) as [ty|e] eqn:Hty.
  - destruct (ty auth_params) as [obj|e] eqn:Hobj.
    + destruct (remote w (length (calls st)) method_name (Positional obj))
        as [v|e] eqn:Hr.
      * rewrite (typed_or_direct_typed _ _ _ Hty Hobj Hr).
        intros [= <- <-]. repeat split. eexists. left. reflexivity.
      * rewrite (typed_or_direct_second_call _ _ _ Hty Hobj Hr).
        intros [= <- <-]. repeat split. eexists. right. eexists. simpl.
        by rewrite <- app_assoc.
    + rewrite (typed_or_direct_no_object _ _ Hty Hobj).
      intros [= <- <-]. repeat split. eexists. left. reflexivity.
  - rewrite (typed_or_direct_no_type _ Hty).
    intros [= <- <-]. repeat split. eexists. left. reflexivity.
Qed.

(** The outcome of the inner [try] is the outcome of the last round trip
    made. *)
Lemma typed_or_direct_result r st' :
  typed_or_direct client method method_name auth_params st = (r, st') →
  ∃ a, last (calls st') = Some (method_name, a)
       ∧ r = remote w (length (calls st') - 1) method_name a.
Proof.
  assert (∀ (l : list (string * call_args)) x,
            (length (l ++ [x]) - 1 = length l)%nat) as Hlen
    by (intros l x; rewrite length_app; simpl; lia).
  destruct (get_type (wsdl client) qname) as [ty|e] eqn:Hty.
  - destruct (ty auth_params) as [obj|e] eqn:Hobj.
    + destruct (remote w (length (calls st)) method_name (Positional obj))
        as [v|e] eqn:Hr.
      * rewrite (typed_or_direct_typed _ _ _ Hty Hobj Hr).
        intros [= <- <-]. eexists. simpl. rewrite last_snoc, Hlen. done.
      * rewrite (typed_or_direct_second_call _ _ _ Hty Hobj Hr).
        intros [= <- <-]. eexists. simpl. rewrite last_snoc, Hlen.
        split; [done|]. by rewrite length_app, Nat.add_1_r.
    + rewrite (typed_or_direct_no_object _ _ Hty Hobj).
      intros [= <- <-]. eexists. simpl. by rewrite last_snoc, Hlen.
  - rewrite (typed_or_direct_no_type _ Hty).
    intros [= <- <-]. eexists. simpl. by rewrite last_snoc, Hlen.
Qed.

End TypedOrDirect.

(** ** The error envelopes *)

Lemma error_envelope_fields (method_name : string) (e : exn) :
  is_Some (error_envelope method_name e !! "error")
  ∧ error_envelope method_name e !! "method" = Some (VStr method_name).
Proof.
  destruct e as [msg|message text code detail|ty msg]; simpl.
  - unfold transport_envelope. by simplify_map_eq.
  - unfold fault_envelope. destruct code, detail; by simplify_map_eq.
  - unfold unexpected_envelope. by simplify_map_eq.
Qed.

(** ** safe_soap_call *)

Section SafeSoapCall.
Context (w : world) (method_name : string) (params : dict)
        (reseller_id api_key : option string).

Lemma safe_soap_call_caught st e st' :
  safe_soap_call_body w method_name params reseller_id api_key st = (Raised e, st') →
  safe_soap_call w method_name params reseller_id api_key st
  = (Returned (VDict (error_envelope method_name e)), st').
Proof. intros H. unfold safe_soap_call, try_except. by rewrite H. Qed.

Lemma safe_soap_call_passed st v st' :
  safe_soap_call_body w method_name params reseller_id api_key st = (Returned v, st') →
  safe_soap_call w method_name params reseller_id api_key st = (Returned v, st').
Proof. intros H. unfold safe_soap_call, try_except. by rewrite H. Qed.

(** With unresolvable credentials the body stops at [add_auth], after the
    client has been obtained and the operation looked up. *)
Lemma safe_soap_call_body_unresolved st e :
  validate_credentials (getenv w) reseller_id api_key = Raised e →
  safe_soap_call_body w method_name params reseller_id api_key st
  = match get_soap_client w st with
    | (Returned c, st1) =>
        if has_operation (wsdl c) method_name
        then (Raised e, st1)
        else (Raised (no_operation_error method_name), st1)
    | (Raised e1, st1) => (Raised e1, st1)
    end.
Proof.
  intros Hv. unfold safe_soap_call_body.
  unfold mbind at 1, M_bind at 1.
  destruct (get_soap_client w st) as [[c|e1] st1]; [|done].
  unfold service_getattr.
  destruct (has_operation (wsdl c) method_name); [|done].
  unfold_M. by rewrite (add_auth_unresolved _ _ _ _ _ Hv).
Qed.

(** The network activity of one call: at most one fetch, and at most two
    round trips, both for [method_name]. *)
Lemma safe_soap_call_network st r st' :
  safe_soap_call w method_name params reseller_id api_key st = (r, st') →
  (fetches st ≤ fetches st' ≤ S (fetches st))%nat
  ∧ ∃ l, calls st' = (calls st ++ l)%list
         ∧ (length l ≤ 2)%nat
         ∧ ∀ x, x ∈ l → x.1 = method_name.
Proof.
  assert (∀ r0 st0,
    safe_soap_call_body w method_name params reseller_id api_key st = (r0, st0) →
    (fetches st ≤ fetches st0 ≤ S (fetches st))%nat
    ∧ ∃ l, calls st0 = (calls st ++ l)%list ∧ (length l ≤ 2)%nat
           ∧ ∀ x, x ∈ l → x.1 = method_name) as Hbody.
  { intros r0 st0. unfold safe_soap_call_body.
    unfold mbind at 1, M_bind at 1.
    destruct (get_soap_client w st) as [r1 st1] eqn:Hg.
    destruct (get_soap_client_spec _ _ _ _ Hg) as (Hc & Hf & _).
    assert (∃ l, calls st1 = (calls st ++ l)%list ∧ (length l ≤ 2)%nat
                 ∧ ∀ x, x ∈ l → x.1 = method_name) as Hnil.
    { exists []. rewrite app_nil_r. split; [done|]. split; [simpl; lia|].
      intros x Hx. by apply elem_of_nil in Hx. }
    destruct r1 as [c|e1]; [|by intros [= <- <-]].
    unfold service_getattr.
    destruct (has_operation (wsdl c) method_name);
      [|unfold_M; by intros [= <- <-]].
    unfold mbind at 1, M_bind at 1, mret at 1, M_ret at 1.
    unfold mbind at 1, M_bind at 1, lift at 1.
    destruct (add_auth (getenv w) params reseller_id api_key) as [auth|e2];
      [|by intros [= <- <-]].
    unfold mbind at 1, M_bind at 1.
    destruct (typed_or_direct c (remote_call w method_name) method_name auth st1)
      as [r2 st2] eqn:Ht.
    destruct (typed_or_direct_calls _ _ _ _ _ _ _ Ht) as (_ & Hf2 & a & Hl).
    assert ((fetches st ≤ fetches st2 ≤ S (fetches st))%nat
            ∧ ∃ l, calls st2 = (calls st ++ l)%list ∧ (length l ≤ 2)%nat
                   ∧ ∀ x, x ∈ l → x.1 = method_name) as Hst2.
    { split; [lia|]. rewrite Hc in Hl. destruct Hl as [Hl|[b Hl]].
      - eexists. split; [exact Hl|]. split; [simpl; lia|].
        intros x Hx. apply list_elem_of_singleton in Hx. by subst.
      - eexists. split; [exact Hl|]. split; [simpl; lia|].
        intros x Hx. apply elem_of_cons in Hx as [->|Hx]; [done|].
        apply list_elem_of_singleton in Hx. by subst. }
    destruct r2 as [v|e3]; [|by intros [= <- <-]].
    unfold lift. by intros [= <- <-]. }
  unfold safe_soap_call, try_except.
  destruct (safe_soap_call_body w method_name params reseller_id api_key st)
    as [[v|e] st0] eqn:Hb; intros [= <- <-]; by eapply Hbody.
Qed.

(** A failure of the last round trip of a call is what the call
    classifies. *)
Lemma safe_soap_call_round_trip_failure st r st' a e :
  safe_soap_call w method_name params reseller_id api_key st = (r, st') →
  calls st' ≠ calls st →
  last (calls st') = Some (method_name, a) →
  remote w (length (calls st') - 1) method_name a = Raised e →
  r = Returned (VDict (error_envelope method_name e)).
Proof.
  intros Hcall Hne Hlast Hrem.
  destruct (safe_soap_call_body w method_name params reseller_id api_key st)
    as [r0 st0] eqn:Hb.
  assert (st0 = st' ∧ (r0 = Raised e → r = Returned (VDict (error_envelope method_name e))))
    as [-> Hr0].
  { unfold safe_soap_call, try_except in Hcall. rewrite Hb in Hcall.
    destruct r0 as [v|e0]; injection Hcall as <- <-; split; try done.
    by intros [= ->]. }
  apply Hr0. clear Hr0 Hcall. revert Hb. unfold safe_soap_call_body.
  unfold mbind at 1, M_bind at 1.
  destruct (get_soap_client w st) as [r1 st1] eqn:Hg.
  destruct (get_soap_client_spec _ _ _ _ Hg) as (Hc & _).
  destruct r1 as [c|e1]; [|intros [= <- <-]; congruence].
  unfold service_getattr.
  destruct (has_operation (wsdl c) method_name);
    [|unfold_M; intros [= <- <-]; congruence].
  unfold mbind at 1, M_bind at 1, mret at 1, M_ret at 1.
  unfold mbind at 1, M_bind at 1, lift at 1.
  destruct (add_auth (getenv w) params reseller_id api_key) as [auth|e2];
    [|intros [= <- <-]; congruence].
  unfold mbind at 1, M_bind at 1.
  destruct (typed_or_direct c (remote_call w method_name) method_name auth st1)
    as [r2 st2] eqn:Ht.
  destruct (typed_or_direct_result _ _ _ _ _ _ _ Ht) as (a' & Hlast' & Hr2).
  destruct r2 as [v|e3].
  - unfold lift. intros [= <- <-]. congruence.
  - intros [= <- <-]. congruence.
Qed.

End SafeSoapCall.

(** X25: no exception leaves [safe_soap_call].  For every world, method
    name, parameter mapping, credentials and state the call returns a
    value.  Whenever the guarded body ends in an exception, of the
    transport kind, the fault kind or any other, the value returned is the
    envelope built for that exception, a mapping that holds [error] and
    [method]; and an exception raised by the last round trip of the call
    is such an exception. *)
Theorem safe_soap_call_never_raises (w : world) (method_name : string)
    (params : dict) (reseller_id api_key : option string) (st : state) :
  (∃ v st',
     safe_soap_call w method_name params reseller_id api_key st = (Returned v, st'))
  ∧ (∀ e st',
       safe_soap_call_body w method_name params reseller_id api_key st
       = (Raised e, st') →
       safe_soap_call w method_name params reseller_id api_key st
       = (Returned (VDict (error_envelope method_name e)), st')
       ∧ is_Some (error_envelope method_name e !! "error")
       ∧ error_envelope method_name e !! "method" = Some (VStr method_name))
  ∧ (∀ r st' a e,
       safe_soap_call w method_name params reseller_id api_key st = (r, st') →
       calls st' ≠ calls st →
       last (calls st') = Some (method_name, a) →
       remote w (length (calls st') - 1) method_name a = Raised e →
       r = Returned (VDict (error_envelope method_name e))).
Proof.
  split; [|split].
  - destruct (safe_soap_call_body w method_name params reseller_id api_key st)
      as [[v|e] st'] eqn:Hb.
    + exists v, st'. by apply safe_soap_call_passed.
    + eexists _, st'. by apply safe_soap_call_caught.
  - intros e st' Hb. split; [by apply safe_soap_call_caught|].
    apply error_envelope_fields.
  - intros r st' a e. apply safe_soap_call_round_trip_failure.
Qed.

Lemma safe_soap_call_never_raises_witness :
  ∃ st',
    safe_soap_call faulty_world "checkDomain" sample_params None None initial_state
    = (Returned
         (VDict (<["error" := VStr "SOAP Fault: Invalid domain"]>
                   (<["method" := VStr "checkDomain"]>
                      (<["fault_code" := VStr "ERR_DOMAIN"]>
                         (<["fault_detail" := VStr "None"]> ∅))))), st').
Proof.
  eexists.
  destruct (proj1 (proj2 (safe_soap_call_never_raises faulty_world "checkDomain"
                            sample_params None None initial_state))
              (Fault (Some "Invalid domain") "Invalid domain"
                     (Some "ERR_DOMAIN") (Some "None"))
              _ eq_refl) as [H _].
  rewrite H. vm_compute. reflexivity.
Defined.

(** The three kinds, each at an endpoint that raises it. *)
Example transport_error_envelope :
  (safe_soap_call
     {| getenv := env_XY; py_int := λ _, Returned 30%Z;
        fetch_wsdl := λ _ _, Returned untyped_descriptor;
        remote := λ _ _ _, Raised (TransportError "timed out") |}
     "checkDomain" sample_params None None initial_state).1
  = Returned
      (VDict (<["error" := VStr "Transport error: timed out"]>
                (<["method" := VStr "checkDomain"]>
                   (<["suggestion" := VStr "Check network connectivity and API endpoint"]> ∅)))).
Proof. vm_compute. reflexivity. Qed.

Example unexpected_error_envelope :
  (safe_soap_call
     {| getenv := env_XY; py_int := λ _, Returned 30%Z;
        fetch_wsdl := λ _ _, Returned untyped_descriptor;
        remote := λ _ _ _, Raised (PyException "XMLSyntaxError" "bad document") |}
     "checkDomain" sample_params None None initial_state).1
  = Returned
      (VDict (<["error" := VStr "bad document"]>
                (<["method" := VStr "checkDomain"]>
                   (<["error_type" := VStr "XMLSyntaxError"]> ∅)))).
Proof. vm_compute. reflexivity. Qed.

(** C1 as stated fails.  With no credentials given and none in the
    environment, the first call neither raises nor leaves the network
    alone: it fetches the descriptor and then returns an envelope. *)
Lemma raises_before_network_counterexample :
  validate_credentials (getenv bare_world) None None
  = Raised (ValueError missing_credentials_msg)
  ∧ (∃ st',
       safe_soap_call bare_world "balanceQuery" ∅ None None initial_state
       = (Returned (VDict (<["error" := VStr missing_credentials_msg]>
                             (<["method" := VStr "balanceQuery"]>
                                (<["error_type" := VStr "ValueError"]> ∅)))), st')
       ∧ fetches st' = 1%nat ∧ calls st' = [])
  ∧ ¬ raises_before_network bare_world "balanceQuery" ∅ None None initial_state.
Proof.
  split; [reflexivity|]. split.
  - eexists. split; [vm_compute; reflexivity|]. split; reflexivity.
  - intros (e & st' & H & _). vm_compute in H. discriminate H.
Qed.

(** The fetches of [get_soap_client] when no client is stored: one when
    the timeout setting parses, none when it does not. *)
Lemma get_soap_client_fetches (w : world) (st : state) r1 st' :
  soap_client st = None →
  get_soap_client w st = (r1, st') →
  match py_int w (default "30" (getenv w "API_TIMEOUT")) with
  | Returned _ => fetches st' = S (fetches st)
  | Raised _ => st' = st
  end.
Proof.
  intros Hnone. unfold get_soap_client.
  unfold mbind, M_bind, read_soap_client at 1. rewrite Hnone.
  unfold initialize_soap_client, new_Client. unfold_M.
  destruct (py_int w _) as [t|e1]; simpl.
  - destruct (fetch_wsdl w (fetches st) t) as [d|e2]; simpl;
      by intros [= <- <-].
  - by intros [= <- <-].
Qed.

(** C1, amended: when the credentials cannot be resolved the call does not
    raise; it returns an error envelope that holds [error] and [method],
    and it makes no remote call.  The client is obtained before the
    credentials are resolved: the call leaves exactly the state that
    [get_soap_client] leaves.  A call that finds a stored client changes
    nothing; a call that finds none attempts exactly one descriptor fetch
    when the timeout setting parses, and none when it does not.  The
    envelope is the one of the connection error when the client cannot be
    obtained, the one of an [AttributeError] when the client lacks the
    operation, and otherwise the one of the missing-credentials
    [ValueError]. *)
Theorem missing_credentials_envelope (w : world) (method_name : string)
    (params : dict) (reseller_id api_key : option string) (st : state) (e : exn) :
  validate_credentials (getenv w) reseller_id api_key = Raised e →
  ∃ d r1 st',
    get_soap_client w st = (r1, st')
    ∧ safe_soap_call w method_name params reseller_id api_key st
      = (Returned (VDict d), st')
    ∧ match r1 with
      | Raised e1 => d = error_envelope method_name e1
      | Returned c =>
          if has_operation (wsdl c) method_name
          then d = unexpected_envelope method_name
                     (ValueError missing_credentials_msg)
          else ∃ msg, d = unexpected_envelope method_name (AttributeError msg)
      end
    ∧ is_Some (d !! "error")
    ∧ d !! "method" = Some (VStr method_name)
    ∧ calls st' = calls st
    ∧ (is_Some (soap_client st) → st' = st)
    ∧ (soap_client st = None →
       match py_int w (default "30" (getenv w "API_TIMEOUT")) with
       | Returned _ => fetches st' = S (fetches st)
       | Raised _ => st' = st
       end)
    ∧ (∀ c, soap_client st' = Some c →
            has_operation (wsdl c) method_name = true →
            d = unexpected_envelope method_name (ValueError missing_credentials_msg)).
Proof.
  intros Hv.
  assert (e = ValueError missing_credentials_msg) as ->.
  { rewrite validate_credentials_spec in Hv.
    destruct (resolve_field reseller_id _);
      [destruct (resolve_field api_key _)|]; congruence. }
  pose proof (safe_soap_call_body_unresolved w method_name params _ _ st _ Hv) as Hb.
  destruct (get_soap_client w st) as [r1 st1] eqn:Hg.
  destruct (get_soap_client_spec _ _ _ _ Hg) as (Hc & Hf & Hsame & _ & Hret).
  assert (∃ e', safe_soap_call_body w method_name params reseller_id api_key st
                = (Raised e', st1)
                ∧ match r1 with
                  | Raised e1 => e' = e1
                  | Returned c =>
                      if has_operation (wsdl c) method_name
                      then e' = ValueError missing_credentials_msg
                      else e' = no_operation_error method_name
                  end) as (e' & Hb' & He').
  { destruct r1 as [c|e1]; [|eauto].
    destruct (has_operation (wsdl c) method_name) eqn:Hop; eauto. }
  exists (error_envelope method_name e'), r1, st1.
  split; [done|].
  split; [by apply safe_soap_call_caught|].
  destruct (error_envelope_fields method_name e') as [H1 H2].
  split.
  { destruct r1 as [c|e1]; [|by subst].
    destruct (has_operation (wsdl c) method_name); [by subst|].
    subst e'. eexists. reflexivity. }
  do 4 (split; [done|]).
  split; [intros Hnone; by apply (get_soap_client_fetches w st r1 st1)|].
  intros c Hc' Hop. specialize (Hret _ Hc'). subst r1.
  rewrite Hop in He'. by subst.
Qed.

Lemma missing_credentials_envelope_witness :
  ∃ d r1 st',
    get_soap_client bare_world initial_state = (r1, st')
    ∧ safe_soap_call bare_world "balanceQuery" ∅ None None initial_state
      = (Returned (VDict d), st')
    ∧ match r1 with
      | Raised e1 => d = error_envelope "balanceQuery" e1
      | Returned c =>
          if has_operation (wsdl c) "balanceQuery"
          then d = unexpected_envelope "balanceQuery"
                     (ValueError missing_credentials_msg)
          else ∃ msg, d = unexpected_envelope "balanceQuery" (AttributeError msg)
      end
    ∧ is_Some (d !! "error")
    ∧ d !! "method" = Some (VStr "balanceQuery")
    ∧ calls st' = calls initial_state
    ∧ (is_Some (soap_client initial_state) → st' = initial_state)
    ∧ (soap_client initial_state = None →
       match py_int bare_world (default "30" (getenv bare_world "API_TIMEOUT")) with
       | Returned _ => fetches st' = S (fetches initial_state)
       | Raised _ => st' = initial_state
       end)
    ∧ (∀ c, soap_client st' = Some c →
            has_operation (wsdl c) "balanceQuery" = true →
            d = unexpected_envelope "balanceQuery" (ValueError missing_credentials_msg)).
Proof.
  apply (missing_credentials_envelope bare_world "balanceQuery" ∅ None None
           initial_state (ValueError missing_credentials_msg)).
  reflexivity.
Defined.

(** C3: an exception raised by the typed round trip is not classified.
    At an endpoint that has the request type and answers the second round
    trip, whatever exception [e] the first round trip raises, of the
    transport kind, the fault kind or any other, the call makes a second
    round trip and returns the normalised answer, a mapping with neither
    [error] nor [method]. *)
Theorem typed_failure_is_absorbed (e : exn) :
  ∃ d st',
    safe_soap_call (retry_world e) "checkDomain" sample_params None None
                   initial_state
    = (Returned (VDict d), st')
    ∧ d = <["status" := VStr "OK"]> (<["balance" := VInt 100]> ∅)
    ∧ d !! "error" = None
    ∧ d !! "method" = None
    ∧ calls st' = [("checkDomain", Positional (VCompound sample_auth));
                   ("checkDomain", Keywords sample_auth)].
Proof.
  eexists _, _. split; [vm_compute; reflexivity|].
  split; [reflexivity|]. split; [vm_compute; reflexivity|].
  split; vm_compute; reflexivity.
Qed.

(** C4: at an endpoint whose descriptor has the request type and whose
    first round trip fails at the transport layer, one call of
    [safe_soap_call] makes two round trips for the same operation, the
    typed one and then the direct one, and returns the response of the
    second instead of a transport envelope. *)
Theorem typed_round_trip_failure_is_retried :
  ∃ st',
    safe_soap_call flaky_world "checkDomain" sample_params None None initial_state
    = (Returned (VDict (<["status" := VStr "OK"]> (<["balance" := VInt 100]> ∅))), st')
    ∧ calls st' = [("checkDomain", Positional (VCompound sample_auth));
                   ("checkDomain", Keywords sample_auth)].
Proof. eexists. split; vm_compute; reflexivity. Qed.

(** * Further properties of the adapter *)

(** ** The shape of a normalised response *)

Lemma serialize_object_VStr v s : serialize_object v = VStr s ↔ v = VStr s.
Proof. split; [|by intros ->]. destruct v; simpl; congruence. Qed.

Lemma status_elem_serialized (l : list value) :
  existsb (λ x, match x with
                | VStr s => String.eqb "status" s
                | _ => false
                end) (map serialize_object l) = true
  ↔ VStr "status" ∈ l.
Proof.
  rewrite existsb_exists. split.
  - intros (x & Hin & Hx). apply in_map_iff in Hin as (y & <- & Hy).
    destruct (serialize_object y) as [| | |s| | | |] eqn:Hs; try done.
    apply String.eqb_eq in Hx. subst s.
    apply (proj1 (serialize_object_VStr _ _)) in Hs. subst y.
    by apply list_elem_of_In.
  - intros Hin. exists (VStr "status"). split; [|done].
    apply in_map_iff. exists (VStr "status"). split; [done|].
    by apply list_elem_of_In.
Qed.

(** The check for the status convention, on a result that is a
    dictionary, is the status convention and never raises. *)
Lemma handle_soap_response_object r (d : dict) :
  handle_soap_response (VObject r d)
  = Returned (VDict (status_convention
                       (filter (λ kv, startswith "_" kv.1 = false) d))).
Proof.
  unfold handle_soap_response, serialize_response, status_convention. simpl.
  set (d' := filter _ d).
  destruct (d' !! "status") as [st|] eqn:Hst; simpl; [|reflexivity].
  destruct st; try reflexivity.
  destruct (startswith "ERR_" s); reflexivity.
Qed.

Lemma handle_soap_response_list (l : list value) :
  handle_soap_response (VList l)
  = if existsb (λ x, match x with
                     | VStr s => String.eqb "status" s
                     | _ => false
                     end) (map serialize_object l)
    then Raised (TypeError "list indices must be integers or slices, not str")
    else Returned (VList (map serialize_object l)).
Proof.
  unfold handle_soap_response, serialize_response. simpl.
  by destruct (existsb _ _).
Qed.

Lemma handle_soap_response_str (s : string) :
  handle_soap_response (VStr s)
  = if str_contains "status" s
    then Raised (TypeError "string indices must be integers")
    else Returned (VStr s).
Proof.
  unfold handle_soap_response, serialize_response. simpl.
  by destruct (str_contains _ _).
Qed.

(** A response without length and without attributes is wrapped. *)
Lemma handle_soap_response_wrapped (text : string) :
  (({[ "result" := VStr text ]} : dict) !! "status") = None.
Proof. by apply lookup_singleton_ne. Qed.

Lemma handle_soap_response_int z :
  handle_soap_response (VInt z)
  = Returned (VDict {[ "result" := VStr (pretty z) ]}).
Proof.
  unfold handle_soap_response, serialize_response. simpl.
  by rewrite handle_soap_response_wrapped.
Qed.

Lemma handle_soap_response_bool b :
  handle_soap_response (VBool b)
  = Returned (VDict {[ "result" := VStr (if b then "True" else "False") ]}).
Proof.
  unfold handle_soap_response, serialize_response. simpl.
  destruct b; by rewrite handle_soap_response_wrapped.
Qed.

(** X1: for a response that is [None], a boolean, an integer, a string, a
    list, a dictionary, a zeep compound value or an instance without
    container methods, [handle_soap_response] raises exactly when the
    response is a string that contains "status" or a list with the string
    "status" among its elements: the membership test written for mappings
    succeeds on them, and indexing with a string then fails.  Responses
    of other kinds (bytes, tuples, sets) are outside the value type. *)
Theorem handle_soap_response_raises (response : value) :
  (∃ e, handle_soap_response response = Raised e)
  ↔ (∃ s, response = VStr s ∧ str_contains "status" s = true)
    ∨ (∃ l, response = VList l ∧ VStr "status" ∈ l).
Proof.
  destruct response as [|b|z|s|l|d|d|r d].
  - split; [intros [e He]; discriminate He|].
    intros [(s & Hs & _)|(l & Hl & _)]; discriminate.
  - rewrite handle_soap_response_bool.
    split; [intros [e He]; discriminate He|].
    intros [(s & Hs & _)|(l & Hl & _)]; discriminate.
  - rewrite handle_soap_response_int.
    split; [intros [e He]; discriminate He|].
    intros [(s & Hs & _)|(l & Hl & _)]; discriminate.
  - rewrite handle_soap_response_str. split.
    + intros [e He]. left. exists s. split; [done|].
      by destruct (str_contains "status" s).
    + intros [(s' & [= <-] & Hs)|(l & Hl & _)]; [|discriminate].
      rewrite Hs. eauto.
  - rewrite handle_soap_response_list. split.
    + intros [e He]. right. exists l. split; [done|].
      apply status_elem_serialized. by destruct (existsb _ _).
    + intros [(s' & Hs & _)|(l' & [= <-] & Hl)]; [discriminate|].
      apply status_elem_serialized in Hl. rewrite Hl. eauto.
  - rewrite handle_soap_response_dict.
    split; [intros [e He]; discriminate He|].
    intros [(s & Hs & _)|(l & Hl & _)]; discriminate.
  - rewrite handle_soap_response_compound, handle_soap_response_dict.
    split; [intros [e He]; discriminate He|].
    intros [(s & Hs & _)|(l & Hl & _)]; discriminate.
  - rewrite handle_soap_response_object.
    split; [intros [e He]; discriminate He|].
    intros [(s & Hs & _)|(l & Hl & _)]; discriminate.
Qed.

Lemma serialized_status (m : dict) s :
  (serialize_object <$> m) !! "status" = Some (VStr s)
  ↔ m !! "status" = Some (VStr s).
Proof.
  rewrite lookup_fmap. destruct (m !! "status") as [x|]; simpl; [|done].
  split; intros [= H]; f_equal; by apply serialize_object_VStr.
Qed.

Lemma error_tagged_has_error (msg st : value) (d : dict) :
  is_Some (error_tagged msg st d !! "error").
Proof.
  destruct (d !! "error") as [x|] eqn:Hx.
  - exists x. by apply error_tagged_lookup_original.
  - exists msg. by apply error_tagged_lookup_error.
Qed.

(** X2: for a mapping response, the normalised result holds an [error]
    field exactly when the response held one already or its [status] is a
    string that starts with [ERR_]; in every other case the result is the
    response with its values serialised, nothing added and nothing
    removed. *)
Theorem error_field_iff (m : dict) :
  ∃ d, handle_soap_response (VDict m) = Returned (VDict d)
       ∧ (is_Some (d !! "error")
          ↔ is_Some (m !! "error")
            ∨ ∃ s, m !! "status" = Some (VStr s) ∧ startswith "ERR_" s = true)
       ∧ ((∀ s, m !! "status" = Some (VStr s) → startswith "ERR_" s = false) →
          d = serialize_object <$> m).
Proof.
  eexists. split; [apply handle_soap_response_dict|].
  set (m' := serialize_object <$> m).
  assert (is_Some (m' !! "error") ↔ is_Some (m !! "error")) as Herr.
  { unfold m'. rewrite lookup_fmap. by rewrite fmap_is_Some. }
  split.
  - destruct (m' !! "status") as [st|] eqn:Hst.
    + destruct st as [| | |s| | | |];
        try (rewrite status_convention_pass by (intros ? ?; congruence);
             rewrite Herr; split; [by left|];
             intros [?|(s' & Hs' & _)]; [done|];
             apply serialized_status in Hs'; fold m' in Hs'; congruence).
      destruct (startswith "ERR_" s) eqn:Hs.
      * rewrite (status_convention_err _ s) by done. split.
        -- intros _. right. exists s. split; [|done]. by apply serialized_status.
        -- intros _. apply error_tagged_has_error.
      * rewrite status_convention_pass by (intros ? ?; congruence).
        rewrite Herr. split; [by left|].
        intros [?|(s' & Hs' & Hp)]; [done|].
        apply serialized_status in Hs'. fold m' in Hs'. congruence.
    + rewrite status_convention_pass by (intros ? ?; congruence).
      rewrite Herr. split; [by left|].
      intros [?|(s' & Hs' & _)]; [done|].
      apply serialized_status in Hs'. fold m' in Hs'. congruence.
  - intros Hpass. apply status_convention_pass. intros s Hs.
    apply Hpass. by apply serialized_status.
Qed.

(** X3: when the response is an instance that can only be read through
    its attributes, every key of the result is a public name: no key
    starts with an underscore, and every public attribute is in the
    result with the value it has on the instance. *)
Theorem private_attributes_dropped (repr : string) (attrs : dict) :
  ∃ d, handle_soap_response (VObject repr attrs) = Returned (VDict d)
       ∧ (∀ k, is_Some (d !! k) → startswith "_" k = false)
       ∧ (∀ k x, startswith "_" k = false → attrs !! k = Some x →
                 d !! k = Some x).
Proof.
  eexists. split; [apply handle_soap_response_object|].
  set (pub := filter (λ kv : string * value, startswith "_" kv.1 = false) attrs).
  assert (∀ k, is_Some (pub !! k) → startswith "_" k = false) as Hpub.
  { intros k [x Hx]. unfold pub in Hx.
    apply map_lookup_filter_Some in Hx as [_ Hk]. done. }
  assert (∀ k x, startswith "_" k = false → attrs !! k = Some x →
                 pub !! k = Some x) as Hkeep.
  { intros k x Hk Hx. unfold pub. by apply map_lookup_filter_Some. }
  split.
  - intros k. unfold status_convention.
    destruct (pub !! "status") as [[| | |s| | | |]|]; try apply Hpub.
    destruct (startswith "ERR_" s); [|apply Hpub].
    destruct (decide (k = "error")) as [->|Hne1]; [done|].
    destruct (decide (k = "status")) as [->|Hne2]; [done|].
    rewrite error_tagged_lookup_other by done. apply Hpub.
  - intros k x Hk Hx. specialize (Hkeep k x Hk Hx).
    unfold status_convention.
    destruct (pub !! "status") as [[| | |s| | | |]|]; try done.
    destruct (startswith "ERR_" s); [|done].
    by apply error_tagged_lookup_original.
Qed.

Lemma handle_soap_response_shape (response r : value) :
  handle_soap_response response = Returned r →
  (∃ d, r = VDict d)
  ∨ (∃ l, response = VList l ∧ r = VList (map serialize_object l))
  ∨ (∃ s, response = VStr s ∧ r = VStr s).
Proof.
  destruct response as [|b|z|s|l|d|d|rp d].
  - intros [= <-]. left. eauto.
  - rewrite handle_soap_response_bool. intros [= <-]. left. eauto.
  - rewrite handle_soap_response_int. intros [= <-]. left. eauto.
  - rewrite handle_soap_response_str.
    destruct (str_contains "status" s); [done|]. intros [= <-]. right. right. eauto.
  - rewrite handle_soap_response_list.
    destruct (existsb _ _); [done|]. intros [= <-]. right. left. eauto.
  - rewrite handle_soap_response_dict. intros [= <-]. left. eauto.
  - rewrite handle_soap_response_compound, handle_soap_response_dict.
    intros [= <-]. left. eauto.
  - rewrite handle_soap_response_object. intros [= <-]. left. eauto.
Qed.

(** ** One call of safe_soap_call, step by step *)

Lemma app_grows {A} (l l' : list A) : l' ≠ [] → (l ++ l')%list ≠ l.
Proof.
  intros Hne Heq. apply (f_equal length) in Heq. rewrite length_app in Heq.
  destruct l'; [done|]. simpl in Heq. lia.
Qed.

Section Steps.
Context (w : world) (method_name : string) (params : dict)
        (reseller_id api_key : option string).

(** The guarded body, read off statement by statement. *)
Lemma safe_soap_call_body_inv st r0 st0 :
  safe_soap_call_body w method_name params reseller_id api_key st = (r0, st0) →
  ∃ r1 st1,
    get_soap_client w st = (r1, st1)
    ∧ match r1 with
      | Raised e1 => r0 = Raised e1 ∧ st0 = st1
      | Returned c =>
          if has_operation (wsdl c) method_name then
            match add_auth (getenv w) params reseller_id api_key with
            | Raised e2 => r0 = Raised e2 ∧ st0 = st1
            | Returned auth =>
                ∃ r2,
                  typed_or_direct c (remote_call w method_name) method_name
                                  auth st1 = (r2, st0)
                  ∧ r0 = (r2 ≫= handle_soap_response)
            end
          else
            r0 = Raised (no_operation_error method_name)
            ∧ st0 = st1
      end.
Proof.
  unfold safe_soap_call_body. unfold mbind at 1, M_bind at 1.
  destruct (get_soap_client w st) as [r1 st1] eqn:Hg.
  intros H. exists r1, st1. split; [done|].
  destruct r1 as [c|e1]; [|by injection H as <- <-].
  unfold service_getattr in H.
  destruct (has_operation (wsdl c) method_name);
    [|unfold_M; by injection H as <- <-].
  unfold mbind at 1, M_bind at 1, mret at 1, M_ret at 1 in H.
  unfold mbind at 1, M_bind at 1, lift at 1 in H.
  destruct (add_auth (getenv w) params reseller_id api_key) as [auth|e2];
    [|by injection H as <- <-].
  unfold mbind at 1, M_bind at 1 in H.
  destruct (typed_or_direct c (remote_call w method_name) method_name auth st1)
    as [r2 st2] eqn:Ht.
  destruct r2 as [v|e3]; unfold lift in H; injection H as <- <-; eauto.
Qed.

Lemma safe_soap_call_inv st r st' :
  safe_soap_call w method_name params reseller_id api_key st = (r, st') →
  ∃ r0,
    safe_soap_call_body w method_name params reseller_id api_key st = (r0, st')
    ∧ r = Returned (match r0 with
                    | Returned v => v
                    | Raised e => VDict (error_envelope method_name e)
                    end).
Proof.
  unfold safe_soap_call, try_except.
  destruct (safe_soap_call_body w method_name params reseller_id api_key st)
    as [[v|e] st0]; intros [= <- <-]; eauto.
Qed.

(** X4: one call makes at most one descriptor fetch and at most two round
    trips; it never drops or replaces a stored client, and with a stored
    client it fetches nothing. *)
Theorem safe_soap_call_footprint st r st' :
  safe_soap_call w method_name params reseller_id api_key st = (r, st') →
  (fetches st ≤ fetches st' ≤ S (fetches st))%nat
  ∧ (length (calls st) ≤ length (calls st') ≤ length (calls st) + 2)%nat
  ∧ (∀ c, soap_client st = Some c →
          soap_client st' = Some c ∧ fetches st' = fetches st).
Proof.
  intros Hcall.
  destruct (safe_soap_call_network _ _ _ _ _ _ _ _ Hcall) as (Hf & l & Hl & Hlen & _).
  split; [done|]. split; [rewrite Hl, length_app; lia|].
  intros c Hc.
  destruct (safe_soap_call_inv _ _ _ Hcall) as (r0 & Hb & _).
  destruct (safe_soap_call_body_inv _ _ _ Hb) as (r1 & st1 & Hg & Hrest).
  rewrite (get_soap_client_cached _ _ _ Hc) in Hg. injection Hg as <- <-.
  destruct (has_operation (wsdl c) method_name); [|by destruct Hrest as [_ ->]].
  destruct (add_auth (getenv w) params reseller_id api_key) as [auth|e2];
    [|by destruct Hrest as [_ ->]].
  destruct Hrest as (r2 & Ht & _).
  destruct (typed_or_direct_calls _ _ _ _ _ _ _ Ht) as (Hs & Hf' & _).
  by rewrite Hs, Hf'.
Qed.

End Steps.

Lemma safe_soap_call_footprint_witness :
  let st' :=
    (safe_soap_call flaky_world "checkDomain" sample_params None None
                    initial_state).2 in
  (fetches initial_state ≤ fetches st' ≤ S (fetches initial_state))%nat
  ∧ (length (calls initial_state) ≤ length (calls st')
     ≤ length (calls initial_state) + 2)%nat
  ∧ (∀ c, soap_client initial_state = Some c →
          soap_client st' = Some c ∧ fetches st' = fetches initial_state).
Proof.
  apply (safe_soap_call_footprint flaky_world "checkDomain" sample_params
           None None initial_state _ _ (surjective_pairing _)).
Defined.

(** The round trips of the inner [try], with what each one carries. *)
Lemma typed_or_direct_args (w : world) (client : Client) (method_name : string)
    (auth_params : dict) (st : state) r st' :
  typed_or_direct client (remote_call w method_name) method_name auth_params st
  = (r, st') →
  ∃ l, calls st' = (calls st ++ l)%list
       ∧ l ≠ []
       ∧ ∀ x, x ∈ l →
           x = (method_name, Keywords auth_params)
           ∨ ∃ ty request_obj,
               get_type (wsdl client) (request_type_qname method_name) = Returned ty
               ∧ ty auth_params = Returned request_obj
               ∧ x = (method_name, Positional request_obj).
Proof.
  destruct (get_type (wsdl client) (request_type_qname method_name))
    as [ty|e] eqn:Hty.
  - destruct (ty auth_params) as [obj|e] eqn:Hobj.
    + destruct (remote w (length (calls st)) method_name (Positional obj))
        as [v|e] eqn:Hr.
      * rewrite (typed_or_direct_typed _ _ _ _ _ _ _ _ Hty Hobj Hr).
        intros [= <- <-]. eexists. split; [reflexivity|]. split; [done|].
        intros x Hx. apply list_elem_of_singleton in Hx. subst. right. eauto.
      * rewrite (typed_or_direct_second_call _ _ _ _ _ _ _ _ Hty Hobj Hr).
        intros [= <- <-]. exists [(method_name, Positional obj);
                                  (method_name, Keywords auth_params)].
        split; [simpl; by rewrite <- app_assoc|]. split; [done|].
        intros x Hx. apply elem_of_cons in Hx as [->|Hx]; [right; eauto|].
        apply list_elem_of_singleton in Hx. subst. by left.
    + rewrite (typed_or_direct_no_object _ _ _ _ _ _ _ Hty Hobj).
      intros [= <- <-]. eexists. split; [reflexivity|]. split; [done|].
      intros x Hx. apply list_elem_of_singleton in Hx. subst. by left.
  - rewrite (typed_or_direct_no_type _ _ _ _ _ _ Hty).
    intros [= <- <-]. eexists. split; [reflexivity|]. split; [done|].
    intros x Hx. apply list_elem_of_singleton in Hx. subst. by left.
Qed.

Section Composition.
Context (w : world) (method_name : string) (params : dict)
        (reseller_id api_key : option string).

Lemma safe_soap_call_no_round_trip st r st' :
  safe_soap_call w method_name params reseller_id api_key st = (r, st') →
  calls st' = calls st
  ∨ ∃ c auth r2,
      get_soap_client w st = (Returned c, {| soap_client := soap_client st';
                                             fetches := fetches st';
                                             calls := calls st |})
      ∧ has_operation (wsdl c) method_name = true
      ∧ add_auth (getenv w) params reseller_id api_key = Returned auth
      ∧ typed_or_direct c (remote_call w method_name) method_name auth
          {| soap_client := soap_client st'; fetches := fetches st';
             calls := calls st |} = (r2, st')
      ∧ r = Returned (match r2 ≫= handle_soap_response with
                      | Returned v => v
                      | Raised e => VDict (error_envelope method_name e)
                      end).
Proof.
  intros Hcall.
  destruct (safe_soap_call_inv _ _ _ _ _ _ _ _ Hcall) as (r0 & Hb & Hr).
  destruct (safe_soap_call_body_inv _ _ _ _ _ _ _ _ Hb) as (r1 & st1 & Hg & Hrest).
  destruct (get_soap_client_spec _ _ _ _ Hg) as (Hc & _).
  destruct r1 as [c|e1]; [|left; destruct Hrest as [_ ->]; done].
  destruct (has_operation (wsdl c) method_name) eqn:Hop;
    [|left; destruct Hrest as [_ ->]; done].
  destruct (add_auth (getenv w) params reseller_id api_key) as [auth|e2] eqn:Ha;
    [|left; destruct Hrest as [_ ->]; done].
  destruct Hrest as (r2 & Ht & ->).
  destruct (typed_or_direct_calls _ _ _ _ _ _ _ Ht) as (Hs & Hf & _).
  assert (st1 = {| soap_client := soap_client st'; fetches := fetches st';
                   calls := calls st |}) as Hst1
    by (destruct st1; simpl in *; congruence).
  right. exists c, auth, r2. rewrite <- Hst1. done.
Qed.

(** X5: a round trip is made only with resolved credentials, a client that
    has the operation, and the merged parameters: every round trip of a
    call carries [params] with the two credential entries added, either as
    keyword arguments or inside the request object built from them. *)
Theorem round_trips_carry_merged_params st r st' l :
  safe_soap_call w method_name params reseller_id api_key st = (r, st') →
  calls st' = (calls st ++ l)%list →
  l ≠ [] →
  ∃ c rid key,
    soap_client st' = Some c
    ∧ has_operation (wsdl c) method_name = true
    ∧ validate_credentials (getenv w) reseller_id api_key = Returned (rid, key)
    ∧ ∀ x, x ∈ l →
        x = (method_name, Keywords (auth_merge rid key params))
        ∨ ∃ ty request_obj,
            get_type (wsdl c) (request_type_qname method_name) = Returned ty
            ∧ ty (auth_merge rid key params) = Returned request_obj
            ∧ x = (method_name, Positional request_obj).
Proof.
  intros Hcall Hl Hne.
  destruct (safe_soap_call_no_round_trip _ _ _ Hcall)
    as [Hsame|(c & auth & r2 & Hg & Hop & Ha & Ht & _)].
  { exfalso. rewrite Hsame in Hl. symmetry in Hl. by apply app_grows in Hl. }
  destruct (get_soap_client_spec _ _ _ _ Hg) as (_ & _ & _ & Hstored & _).
  specialize (Hstored c eq_refl). simpl in Hstored.
  destruct (typed_or_direct_args _ _ _ _ _ _ _ Ht) as (l' & Hl' & _ & Hargs).
  simpl in Hl'. rewrite Hl in Hl'. apply app_inv_head in Hl'. subst l'.
  unfold add_auth in Ha.
  destruct (validate_credentials (getenv w) reseller_id api_key)
    as [[rid key]|e] eqn:Hv; [|done].
  simpl in Ha. injection Ha as <-.
  exists c, rid, key. done.
Qed.

(** X6: when the last round trip of a call returns a response, the call
    returns the normalised response, or the envelope of the exception
    when normalisation raises.  The value is a mapping unless the
    response is a list or a string, which come back as a list (serialised
    element by element) and as the same string. *)
Theorem safe_soap_call_returns_normalized st r st' a response :
  safe_soap_call w method_name params reseller_id api_key st = (r, st') →
  calls st' ≠ calls st →
  last (calls st') = Some (method_name, a) →
  remote w (length (calls st') - 1) method_name a = Returned response →
  r = Returned (match handle_soap_response response with
                | Returned v => v
                | Raised e => VDict (error_envelope method_name e)
                end)
  ∧ ((∃ d, r = Returned (VDict d))
     ∨ (∃ l, response = VList l ∧ r = Returned (VList (map serialize_object l)))
     ∨ (∃ s, response = VStr s ∧ r = Returned (VStr s))).
Proof.
  intros Hcall Hne Hlast Hrem.
  destruct (safe_soap_call_no_round_trip _ _ _ Hcall)
    as [Hsame|(c & auth & r2 & _ & _ & _ & Ht & ->)]; [done|].
  destruct (typed_or_direct_result _ _ _ _ _ _ _ Ht) as (a' & Hlast' & ->).
  rewrite Hlast in Hlast'. injection Hlast' as <-.
  rewrite Hrem. simpl. split; [done|].
  destruct (handle_soap_response response) as [v|e] eqn:Hh; [|left; eauto].
  destruct (handle_soap_response_shape _ _ Hh) as [[d ->]|[(l & -> & ->)|(s & -> & ->)]];
    eauto.
Qed.

End Composition.

Lemma round_trips_carry_merged_params_witness :
  ∃ c rid key,
    soap_client (safe_soap_call faulty_world "checkDomain" sample_params
                                None None initial_state).2 = Some c
    ∧ has_operation (wsdl c) "checkDomain" = true
    ∧ validate_credentials (getenv faulty_world) None None = Returned (rid, key)
    ∧ ∀ x, x ∈ [("checkDomain", Keywords sample_auth)] →
        x = ("checkDomain", Keywords (auth_merge rid key sample_params))
        ∨ ∃ ty request_obj,
            get_type (wsdl c) (request_type_qname "checkDomain") = Returned ty
            ∧ ty (auth_merge rid key sample_params) = Returned request_obj
            ∧ x = ("checkDomain", Positional request_obj).
Proof.
  apply (round_trips_carry_merged_params faulty_world "checkDomain" sample_params
           None None initial_state _ _ _ (surjective_pairing _)).
  - vm_compute. reflexivity.
  - done.
Defined.

Lemma safe_soap_call_returns_normalized_witness :
  (safe_soap_call bare_world "balanceQuery" ∅ (Some "A") (Some "B")
                  initial_state).1
  = Returned (match handle_soap_response ok_response with
              | Returned v => v
              | Raised e => VDict (error_envelope "balanceQuery" e)
              end).
Proof.
  apply (safe_soap_call_returns_normalized bare_world "balanceQuery" ∅
           (Some "A") (Some "B") initial_state _ _
           (Positional (VCompound (auth_merge "A" "B" ∅))) ok_response
           (surjective_pairing _)).
  - vm_compute. discriminate.
  - vm_compute. reflexivity.
  - reflexivity.
Defined.

(** ** Failures before the round trip *)

(** X7: [get_soap_client] raises only when no client is stored, and what it
    raises is the [ValueError] "Could not connect to Synergy Wholesale
    API: ..." wrapped around the original failure.  It stores nothing
    then, so the next call tries again.  A timeout setting that [int]
    rejects fails before any fetch; otherwise exactly one fetch was
    attempted and it is the fetch that failed. *)
Theorem get_soap_client_failure (w : world) (st : state) (e : exn) (st' : state) :
  get_soap_client w st = (Raised e, st') →
  soap_client st = None
  ∧ soap_client st' = None
  ∧ calls st' = calls st
  ∧ (∃ e0, e = connect_error e0
           ∧ match py_int w (default "30" (getenv w "API_TIMEOUT")) with
             | Raised e1 => e0 = e1 ∧ st' = st
             | Returned timeout =>
                 fetch_wsdl w (fetches st) timeout = Raised e0
                 ∧ fetches st' = S (fetches st)
             end).
Proof.
  unfold get_soap_client. unfold mbind, M_bind, read_soap_client at 1.
  destruct (soap_client st) as [c|] eqn:Hc; [unfold_M; done|].
  unfold initialize_soap_client, new_Client. unfold_M.
  destruct (py_int w _) as [t|e1]; simpl.
  - destruct (fetch_wsdl w (fetches st) t) as [d|e2]; simpl; [done|].
    intros [= <- <-]. simpl. repeat split; try done. eexists. split; done.
  - intros [= <- <-]. repeat split; try done. eexists. split; done.
Qed.

Lemma get_soap_client_failure_witness :
  soap_client initial_state = None
  ∧ soap_client (get_soap_client late_world initial_state).2 = None
  ∧ calls (get_soap_client late_world initial_state).2 = calls initial_state
  ∧ (∃ e0, connect_error (TransportError "unreachable") = connect_error e0
           ∧ match py_int late_world (default "30" (getenv late_world "API_TIMEOUT")) with
             | Raised e1 => e0 = e1
                            ∧ (get_soap_client late_world initial_state).2 = initial_state
             | Returned timeout =>
                 fetch_wsdl late_world (fetches initial_state) timeout = Raised e0
                 ∧ fetches (get_soap_client late_world initial_state).2
                   = S (fetches initial_state)
             end).
Proof.
  apply (get_soap_client_failure late_world initial_state
           (connect_error (TransportError "unreachable"))).
  reflexivity.
Defined.

Example py_repr_name : py_repr "checkDomain" = "'checkDomain'".
Proof. reflexivity. Qed.

Example py_repr_quote :
  py_repr "it's"
  = String (ascii_of_nat 34) ("it's" ++ String (ascii_of_nat 34) EmptyString).
Proof. reflexivity. Qed.

(** X8: a client without the operation.  For a name in ASCII text the
    call returns the envelope of zeep's [AttributeError], whose message
    is "Service has no operation " followed by the name as [%r] writes
    it, with [error_type] "AttributeError", and leaves the state as it
    was: no fetch, no round trip, and the credentials are not looked at,
    whatever they are. *)
Theorem unknown_operation_envelope (w : world) (method_name : string)
    (params : dict) (reseller_id api_key : option string) (st : state) (c : Client) :
  is_ascii_text method_name = true →
  soap_client st = Some c →
  has_operation (wsdl c) method_name = false →
  safe_soap_call w method_name params reseller_id api_key st
  = (Returned (VDict (<["error_type" := VStr "AttributeError"]>
                        (<["method" := VStr method_name]>
                           (<["error" := VStr ("Service has no operation "
                                               ++ py_repr method_name)]> ∅)))), st).
Proof.
  intros _ Hc Hop. unfold safe_soap_call, try_except, safe_soap_call_body.
  unfold mbind at 1, M_bind at 1.
  rewrite (get_soap_client_cached _ _ _ Hc).
  unfold service_getattr. rewrite Hop. unfold_M. reflexivity.
Qed.

Lemma unknown_operation_envelope_witness :
  let st1 := (get_soap_client narrow_world initial_state).2 in
  safe_soap_call narrow_world "noSuchOperation" ∅ None None st1
  = (Returned (VDict (<["error_type" := VStr "AttributeError"]>
                        (<["method" := VStr "noSuchOperation"]>
                           (<["error" :=
                                VStr "Service has no operation 'noSuchOperation'"]>
                              ∅)))), st1).
Proof.
  apply (unknown_operation_envelope narrow_world "noSuchOperation" ∅ None None _
           {| client_id := 0; wsdl := balance_only_descriptor |});
    reflexivity.
Defined.

(** X9: the three envelopes can be told apart by their keys: [suggestion]
    is there exactly for a transport error, [error_type] exactly for an
    exception that is neither a transport error nor a fault, and
    [fault_code] and [fault_detail] exactly for a fault that has the
    attribute. *)
Theorem error_envelope_kinds (method_name : string) (e : exn) :
  (is_Some (error_envelope method_name e !! "suggestion")
   ↔ ∃ msg, e = TransportError msg)
  ∧ (is_Some (error_envelope method_name e !! "error_type")
     ↔ ∃ ty msg, e = PyException ty msg)
  ∧ (∀ c, error_envelope method_name e !! "fault_code" = Some (VStr c)
          ↔ ∃ message text detail, e = Fault message text (Some c) detail)
  ∧ (∀ d, error_envelope method_name e !! "fault_detail" = Some (VStr d)
          ↔ ∃ message text code, e = Fault message text code (Some d)).
Proof.
  destruct e as [msg|message text code detail|ty msg]; simpl.
  - unfold transport_envelope. repeat split.
    + eauto.
    + intros _. by simplify_map_eq.
    + intros [x Hx]. by simplify_map_eq.
    + intros (? & ? & ?). done.
    + intros Hx. by simplify_map_eq.
    + intros (? & ? & ? & ?). done.
    + intros Hx. by simplify_map_eq.
    + intros (? & ? & ? & ?). done.
  - unfold fault_envelope. repeat split.
    + intros [x Hx]. destruct code, detail; by simplify_map_eq.
    + intros (? & ?). done.
    + intros [x Hx]. destruct code, detail; by simplify_map_eq.
    + intros (? & ? & ?). done.
    + intros Hx. destruct code, detail; simplify_map_eq; eauto.
    + intros (? & ? & ? & [= -> -> -> ->]).
      match goal with |- context [match ?d with _ => _ end] =>
        destruct d end; by simplify_map_eq.
    + intros Hx. destruct code, detail; simplify_map_eq; eauto.
    + intros (? & ? & ? & [= -> -> -> ->]).
      match goal with |- context [match ?d with _ => _ end] =>
        destruct d end; by simplify_map_eq.
  - unfold unexpected_envelope. repeat split.
    + intros [x Hx]. by simplify_map_eq.
    + intros (? & ?). done.
    + eauto.
    + intros _. by simplify_map_eq.
    + intros Hx. by simplify_map_eq.
    + intros (? & ? & ? & ?). done.
    + intros Hx. by simplify_map_eq.
    + intros (? & ? & ? & ?). done.
Qed.

(** * The tool functions *)

(** Whatever [safe_soap_call] returns supports the membership test the
    tools apply to it. *)
Lemma safe_soap_call_value_shape (w : world) (method_name : string)
    (params : dict) (reseller_id api_key : option string) (st : state) r st' :
  safe_soap_call w method_name params reseller_id api_key st = (r, st') →
  ∃ v, r = Returned v
       ∧ ((∃ d, v = VDict d) ∨ (∃ l, v = VList l) ∨ (∃ s, v = VStr s)).
Proof.
  intros Hcall.
  destruct (safe_soap_call_inv _ _ _ _ _ _ _ _ Hcall) as (r0 & Hb & ->).
  eexists. split; [reflexivity|].
  destruct r0 as [v|e]; [|left; eauto].
  destruct (safe_soap_call_body_inv _ _ _ _ _ _ _ _ Hb) as (r1 & st1 & _ & Hrest).
  destruct r1 as [c|e1]; [|by destruct Hrest].
  destruct (has_operation (wsdl c) method_name); [|by destruct Hrest].
  destruct (add_auth (getenv w) params reseller_id api_key) as [auth|e2];
    [|by destruct Hrest].
  destruct Hrest as (r2 & _ & Hr0). destruct r2 as [resp|e3]; [|done].
  simpl in Hr0. symmetry in Hr0.
  destruct (handle_soap_response_shape _ _ Hr0) as [?|[(l & _ & ->)|(s & _ & ->)]];
    eauto.
Qed.

Lemma py_contains_defined (key : string) (v : value) :
  (∃ d, v = VDict d) ∨ (∃ l, v = VList l) ∨ (∃ s, v = VStr s) →
  ∃ b, py_contains key v = Returned b.
Proof. intros [[d ->]|[[l ->]|[s ->]]]; simpl; eauto. Qed.

(** ** get_domain_pricing *)

Section Pricing.
Context (w : world).

Lemma get_domain_pricing_inv now reseller_id api_key force_refresh
    (cache : dict) st out cache' st' :
  get_domain_pricing w now reseller_id api_key force_refresh cache st
  = (out, (cache', st')) →
  let cached :=
    default (error_result "No pricing data available") (cache !! "pricing") in
  (force_refresh = false ∧ is_Some (cache !! "pricing")
   ∧ out = Returned cached ∧ cache' = cache ∧ st' = st)
  ∨ ∃ result,
      (force_refresh = true ∨ cache !! "pricing" = None)
      ∧ safe_soap_call w "getDomainPricing" ∅ reseller_id api_key st
        = (Returned result, st')
      ∧ ((py_contains "error" result = Returned true
          ∧ out = Returned cached ∧ cache' = cache)
         ∨ (py_contains "error" result = Returned false
            ∧ out = Returned result
            ∧ cache' = <["timestamp" := VStr now]> (<["pricing" := result]> cache))).
Proof.
  unfold get_domain_pricing. intros H.
  destruct (force_refresh || negb (bool_decide (is_Some (cache !! "pricing"))))
    eqn:Hgo.
  - right.
    assert (force_refresh = true ∨ cache !! "pricing" = None) as Hwhy.
    { apply orb_true_iff in Hgo as [?|Hn]; [by left|right].
      apply negb_true_iff, bool_decide_eq_false in Hn.
      by apply eq_None_not_Some. }
    destruct (safe_soap_call w "getDomainPricing" ∅ reseller_id api_key st)
      as [r st1] eqn:Hcall.
    destruct (safe_soap_call_value_shape _ _ _ _ _ _ _ _ Hcall) as (v & -> & Hshape).
    destruct (py_contains_defined "error" v Hshape) as [b Hb].
    rewrite Hb in H. exists v. split; [done|].
    destruct b; injection H as <- <- <-; split; auto.
  - left. apply orb_false_iff in Hgo as [-> Hin].
    apply negb_false_iff, bool_decide_eq_true in Hin.
    by injection H as <- <- <-.
Qed.

(** X10: [get_domain_pricing] never raises and never reports the failure of
    its call.  When the result of the call holds [error], what comes back
    is the pricing cached before, or "No pricing data available" when
    nothing is cached, and the cache is left as it was; a result is
    cached, with the time, only when it holds no [error]. *)
Theorem get_domain_pricing_hides_errors now reseller_id api_key force_refresh
    (cache : dict) st out cache' st' :
  get_domain_pricing w now reseller_id api_key force_refresh cache st
  = (out, (cache', st')) →
  ∃ r, out = Returned r
       ∧ (cache' = cache
          ∧ r = default (error_result "No pricing data available")
                        (cache !! "pricing")
          ∨ py_contains "error" r = Returned false
            ∧ safe_soap_call w "getDomainPricing" ∅ reseller_id api_key st
              = (Returned r, st')
            ∧ cache' !! "pricing" = Some r
            ∧ cache' !! "timestamp" = Some (VStr now)).
Proof.
  intros H. destruct (get_domain_pricing_inv _ _ _ _ _ _ _ _ _ H)
    as [(_ & _ & -> & -> & _)|(result & _ & Hcall & [(_ & -> & ->)|(Herr & -> & ->)])].
  - eexists. split; [done|]. by left.
  - eexists. split; [done|]. by left.
  - eexists. split; [done|]. right.
    split; [done|]. split; [done|]. split; by simplify_map_eq.
Qed.

(** X11: once the tool has returned a result without [error], every later
    call without [force_refresh] returns that same result and touches
    neither the cache nor the network, whatever credentials it is
    given. *)
Theorem get_domain_pricing_memo now reseller_id api_key force_refresh
    (cache : dict) st r cache' st' :
  get_domain_pricing w now reseller_id api_key force_refresh cache st
  = (Returned r, (cache', st')) →
  py_contains "error" r = Returned false →
  ∀ now2 reseller_id2 api_key2,
    get_domain_pricing w now2 reseller_id2 api_key2 false cache' st'
    = (Returned r, (cache', st')).
Proof.
  intros H Hr now2 rid2 key2.
  assert (cache' !! "pricing" = Some r) as Hp.
  { destruct (get_domain_pricing_inv _ _ _ _ _ _ _ _ _ H)
      as [(_ & [p Hp] & [= ->] & -> & _)
         |(result & Hwhy & _ & [(_ & [= ->] & ->)|(_ & [= ->] & ->)])].
    - by rewrite Hp.
    - destruct (cache !! "pricing") as [p|] eqn:Hp; [done|].
      simpl in Hr. vm_compute in Hr. discriminate Hr.
    - by simplify_map_eq. }
  unfold get_domain_pricing. rewrite Hp. reflexivity.
Qed.

End Pricing.

Lemma get_domain_pricing_hides_errors_witness :
  ∃ r, Returned (error_result "No pricing data available") = Returned r
       ∧ ((∅ : dict) = ∅
          ∧ r = default (error_result "No pricing data available")
                        ((∅ : dict) !! "pricing")
          ∨ py_contains "error" r = Returned false
            ∧ safe_soap_call bare_world "getDomainPricing" ∅ None None initial_state
              = (Returned r,
                 (safe_soap_call bare_world "getDomainPricing" ∅ None None
                                 initial_state).2)
            ∧ (∅ : dict) !! "pricing" = Some r
            ∧ (∅ : dict) !! "timestamp" = Some (VStr "2024-01-01T00:00:00")).
Proof.
  apply (get_domain_pricing_hides_errors bare_world "2024-01-01T00:00:00"
           None None false ∅ initial_state).
  vm_compute. reflexivity.
Defined.

Lemma get_domain_pricing_memo_witness :
  get_domain_pricing bare_world "2024-01-02T00:00:00" None None false
    (get_domain_pricing bare_world "2024-01-01T00:00:00" (Some "A") (Some "B")
                        false ∅ initial_state).2.1
    (get_domain_pricing bare_world "2024-01-01T00:00:00" (Some "A") (Some "B")
                        false ∅ initial_state).2.2
  = (Returned (VDict (<["status" := VStr "OK"]> (<["balance" := VInt 100]> ∅))),
     (get_domain_pricing bare_world "2024-01-01T00:00:00" (Some "A") (Some "B")
                         false ∅ initial_state).2).
Proof.
  apply (get_domain_pricing_memo bare_world "2024-01-01T00:00:00"
           (Some "A") (Some "B") false ∅ initial_state).
  - vm_compute. reflexivity.
  - vm_compute. reflexivity.
Defined.

(** ** register_domain *)

Lemma dict_or_cases (a : option dict) (b : dict) :
  dict_or a b = match a with
                | Some c => if bool_decide (c = ∅) then b else c
                | None => b
                end.
Proof.
  destruct a as [c|]; [|done]. unfold dict_or, truthy_dict.
  by destruct (bool_decide (c = ∅)).
Qed.

(** X12: the parameters [register_domain] sends.  The call is one
    [registerDomain] request whose parameters hold the domain name, the
    years, the nameservers and the registrant contact as given; each of the
    technical, admin and billing contacts is the mapping given for it when
    that mapping is not empty, and the registrant contact when it is left
    out or empty; [idProtection] is "on" when protection is asked for and
    absent otherwise; [eligibilityFields] is present only for a non-empty
    mapping; and there is no other key. *)
Theorem register_domain_contact_defaults (w : world) (domain_name : string)
    (years : Z) (nameservers : list string) (registrant : dict)
    (technical admin billing : option dict) (id_protection : bool)
    (eligibility : option dict) (reseller_id api_key : option string) :
  let sent (contact : option dict) : dict :=
    match contact with
    | Some c => if bool_decide (c = ∅) then registrant else c
    | None => registrant
    end in
  ∃ params : dict,
    register_domain w domain_name years nameservers registrant technical admin
      billing id_protection eligibility reseller_id api_key
    = safe_soap_call w "registerDomain" params reseller_id api_key
    ∧ params !! "domainName" = Some (VStr domain_name)
    ∧ params !! "years" = Some (VInt years)
    ∧ params !! "nameServers" = Some (VList (VStr <$> nameservers))
    ∧ params !! "registrant_contact" = Some (VDict registrant)
    ∧ params !! "technical_contact" = Some (VDict (sent technical))
    ∧ params !! "admin_contact" = Some (VDict (sent admin))
    ∧ params !! "billing_contact" = Some (VDict (sent billing))
    ∧ params !! "idProtection" = (if id_protection then Some (VStr "on") else None)
    ∧ params !! "eligibilityFields"
      = match eligibility with
        | Some fields => if bool_decide (fields = ∅) then None
                         else Some (VDict fields)
        | None => None
        end
    ∧ ∀ k, k ≠ "domainName" → k ≠ "years" → k ≠ "nameServers" →
           k ≠ "registrant_contact" → k ≠ "technical_contact" →
           k ≠ "admin_contact" → k ≠ "billing_contact" →
           k ≠ "idProtection" → k ≠ "eligibilityFields" →
           params !! k = None.
Proof.
  intros sent. unfold register_domain.
  rewrite !dict_or_cases. fold (sent technical) (sent admin) (sent billing).
  generalize (sent technical) (sent admin) (sent billing). intros t a b.
  destruct id_protection, eligibility as [f|]; simpl;
    try destruct (bool_decide (f = ∅)); simpl;
    (eexists; split; [reflexivity|]);
    repeat (split; [by simplify_map_eq|]);
    intros k ? ? ? ? ? ? ? ? ?; by simplify_map_eq.
Qed.



(** ** DNS records *)

Lemma optional_field {A} (f : A → value) (k : string) (o : option A)
    (params : dict) :
  params !! k = None →
  let params' :=
    match o with Some x => <[k := f x]> params | None => params end in
  params' !! k = f <$> o
  ∧ (∀ j, j ≠ k → params' !! j = params !! j)
  ∧ size params' = (size params + match o with Some _ => 1 | None => 0 end)%nat.
Proof.
  intros Hk. destruct o as [x|]; simpl.
  - rewrite lookup_insert_eq. split; [done|]. split.
    + intros j Hj. by rewrite lookup_insert_ne.
    + rewrite map_size_insert_None by done. lia.
  - split; [done|]. split; [done|lia].
Qed.

Section DNS.
Context (w : world) (upper : string → string).

(** X13: [add_dns_record] and the priority.  Every request holds the
    domain name, the upper-cased record type, the name, the content and
    the TTL, and no key besides these and [priority].  For a record type
    that is neither MX nor SRV once upper-cased the request is the same
    whatever priority is given, and holds no [priority].  For MX and SRV a
    given priority is sent as [priority], and a missing one is refused
    with an [error] mapping before anything else happens. *)
Theorem add_dns_record_priority (domain_name record_type name content : string)
    (ttl : Z) (reseller_id api_key : option string) :
  let fields (params : dict) : Prop :=
    params !! "domainName" = Some (VStr domain_name)
    ∧ params !! "type" = Some (VStr (upper record_type))
    ∧ params !! "name" = Some (VStr name)
    ∧ params !! "content" = Some (VStr content)
    ∧ params !! "TTL" = Some (VInt ttl)
    ∧ ∀ k, k ≠ "domainName" → k ≠ "type" → k ≠ "name" → k ≠ "content" →
           k ≠ "TTL" → k ≠ "priority" → params !! k = None in
  (is_MX_or_SRV (upper record_type) = false →
   ∃ params : dict,
     fields params
     ∧ params !! "priority" = None
     ∧ ∀ priority,
         add_dns_record w upper domain_name record_type name content ttl priority
           reseller_id api_key
         = safe_soap_call w "addDNSRecord" params reseller_id api_key)
  ∧ (is_MX_or_SRV (upper record_type) = true →
     (∀ p, ∃ params : dict,
        fields params
        ∧ params !! "priority" = Some (VInt p)
        ∧ add_dns_record w upper domain_name record_type name content ttl (Some p)
            reseller_id api_key
          = safe_soap_call w "addDNSRecord" params reseller_id api_key)
     ∧ ∀ st, add_dns_record w upper domain_name record_type name content ttl None
               reseller_id api_key st
             = (Returned (error_result ("Priority is required for "
                                        ++ record_type ++ " records")), st)).
Proof.
  intros fields. unfold fields. split; intros Ht; unfold add_dns_record; rewrite Ht.
  - eexists. split; [|split; [|by intros [p|]]].
    + repeat (split; [by simplify_map_eq|]).
      intros k ? ? ? ? ? ?. by simplify_map_eq.
    + by simplify_map_eq.
  - split; [|done]. intros p. eexists. split; [|split; [|reflexivity]].
    + repeat (split; [by simplify_map_eq|]).
      intros k ? ? ? ? ? ?. by simplify_map_eq.
    + by simplify_map_eq.
Qed.



(** X14: [update_dns_record] refuses an update exactly when no field is
    given, and then nothing else happens.  A record type counts as given
    when it is a non-empty string; a name, a content, a TTL and a priority
    count as given whenever they are not [None], so an empty name or a
    TTL of 0 is an update.  An update goes out as one [updateDNSRecord]
    request that holds the domain name, the record id, the upper-cased
    record type when one is given, each other field exactly when it is
    given, and no other key. *)
Theorem update_dns_record_refused_iff (domain_name record_id : string)
    (record_type name content : option string) (ttl priority : option Z)
    (reseller_id api_key : option string) :
  let refused :=
    ∀ st, update_dns_record w upper domain_name record_id record_type name
            content ttl priority reseller_id api_key st
          = (Returned (error_result
                         "At least one field to update must be provided"), st) in
  let sent :=
    ∃ params : dict,
      update_dns_record w upper domain_name record_id record_type name
        content ttl priority reseller_id api_key
      = safe_soap_call w "updateDNSRecord" params reseller_id api_key
      ∧ params !! "domainName" = Some (VStr domain_name)
      ∧ params !! "recordID" = Some (VStr record_id)
      ∧ params !! "type"
        = match record_type with
          | Some t => if String.eqb t EmptyString then None
                      else Some (VStr (upper t))
          | None => None
          end
      ∧ params !! "name" = VStr <$> name
      ∧ params !! "content" = VStr <$> content
      ∧ params !! "TTL" = VInt <$> ttl
      ∧ params !! "priority" = VInt <$> priority
      ∧ ∀ k, k ≠ "domainName" → k ≠ "recordID" → k ≠ "type" → k ≠ "name" →
             k ≠ "content" → k ≠ "TTL" → k ≠ "priority" → params !! k = None in
  if negb (truthy record_type) && bool_decide (name = None)
     && bool_decide (content = None) && bool_decide (ttl = None)
     && bool_decide (priority = None)
  then refused else sent.
Proof.
  unfold update_dns_record.
  set (p0 := <["recordID" := VStr record_id]>
               (<["domainName" := VStr domain_name]> (∅ : dict))).
  assert (size p0 = 2%nat
          ∧ p0 !! "domainName" = Some (VStr domain_name)
          ∧ p0 !! "recordID" = Some (VStr record_id)
          ∧ (∀ j, j ≠ "domainName" → j ≠ "recordID" → p0 !! j = None))
    as (H0 & Hd0 & Hr0 & Ho0).
  { unfold p0. split.
    - rewrite !map_size_insert_None, map_size_empty; [done| |];
        by rewrite ?lookup_insert_ne, lookup_empty.
    - split; [by rewrite lookup_insert_ne, lookup_insert_eq|].
      split; [by rewrite lookup_insert_eq|].
      intros j H1 H2. by rewrite !lookup_insert_ne, lookup_empty. }
  clearbody p0.
  set (p1 := match record_type with
             | Some t => if truthy record_type
                         then <["type" := VStr (upper t)]> p0 else p0
             | None => p0
             end).
  assert (size p1 = (2 + if truthy record_type then 1 else 0)%nat
          ∧ (∀ j, j ≠ "type" → p1 !! j = p0 !! j)
          ∧ p1 !! "type"
            = match record_type with
              | Some t => if String.eqb t EmptyString then None
                          else Some (VStr (upper t))
              | None => None
              end) as (H1 & Ho1 & Ht1).
  { unfold p1. destruct record_type as [t|];
      [|rewrite H0; split; [done|]; split; [done|]; by apply Ho0].
    simpl. destruct (String.eqb t EmptyString); simpl;
      [rewrite H0; split; [done|]; split; [done|]; by apply Ho0|].
    rewrite map_size_insert_None, H0 by (by apply Ho0). split; [done|].
    split; [|by rewrite lookup_insert_eq].
    intros j Hj. by rewrite lookup_insert_ne. }
  clearbody p1.
  destruct (optional_field VStr "name" name p1) as (Hn2 & Ho2 & H2);
    [by rewrite Ho1, Ho0|].
  set (p2 := match name with Some n => _ | None => _ end) in *. clearbody p2.
  destruct (optional_field VStr "content" content p2) as (Hc3 & Ho3 & H3);
    [by rewrite Ho2, Ho1, Ho0|].
  set (p3 := match content with Some n => _ | None => _ end) in *. clearbody p3.
  destruct (optional_field VInt "TTL" ttl p3) as (Ht4 & Ho4 & H4);
    [by rewrite Ho3, Ho2, Ho1, Ho0|].
  set (p4 := match ttl with Some n => _ | None => _ end) in *. clearbody p4.
  destruct (optional_field VInt "priority" priority p4) as (Hp5 & Ho5 & H5);
    [by rewrite Ho4, Ho3, Ho2, Ho1, Ho0|].
  set (p5 := match priority with Some n => _ | None => _ end) in *. clearbody p5.
  assert (p5 !! "domainName" = Some (VStr domain_name)
          ∧ p5 !! "recordID" = Some (VStr record_id)
          ∧ p5 !! "type"
            = match record_type with
              | Some t => if String.eqb t EmptyString then None
                          else Some (VStr (upper t))
              | None => None
              end
          ∧ p5 !! "name" = VStr <$> name
          ∧ p5 !! "content" = VStr <$> content
          ∧ p5 !! "TTL" = VInt <$> ttl
          ∧ p5 !! "priority" = VInt <$> priority
          ∧ ∀ k, k ≠ "domainName" → k ≠ "recordID" → k ≠ "type" → k ≠ "name" →
                 k ≠ "content" → k ≠ "TTL" → k ≠ "priority" → p5 !! k = None)
    as Hlook.
  { split; [by rewrite Ho5, Ho4, Ho3, Ho2, Ho1|].
    split; [by rewrite Ho5, Ho4, Ho3, Ho2, Ho1|].
    split; [by rewrite Ho5, Ho4, Ho3, Ho2|].
    split; [by rewrite Ho5, Ho4, Ho3|].
    split; [by rewrite Ho5, Ho4|].
    split; [by rewrite Ho5|].
    split; [done|].
    intros k ? ? ? ? ? ? ?.
    rewrite Ho5, Ho4, Ho3, Ho2, Ho1 by done. by apply Ho0. }
  destruct (negb (truthy record_type) && bool_decide (name = None)
            && bool_decide (content = None) && bool_decide (ttl = None)
            && bool_decide (priority = None)) eqn:Hall.
  - repeat (apply andb_true_iff in Hall as [Hall ?]).
    repeat match goal with
           | H : bool_decide _ = true |- _ => apply bool_decide_eq_true in H
           end.
    apply negb_true_iff in Hall. subst. rewrite Hall in H1. simpl in *.
    assert ((size p5 =? 2)%nat = true) as -> by (apply Nat.eqb_eq; lia).
    done.
  - assert ((size p5 =? 2)%nat = false) as ->.
    { apply Nat.eqb_neq. intros Hsz.
      destruct (truthy record_type), name, content, ttl, priority;
        simpl in *; try discriminate Hall; lia. }
    exists p5. done.
Qed.
(** ** Mail forwards *)

Lemma substring_at_end (s t : string) :
  substring (String.length s) (String.length t) (s ++ t) = t.
Proof.
  induction s as [|a s IH]; simpl; [|done].
  induction t as [|b t IHt]; simpl; [done|]. f_equal.
  destruct t; [done|]. simpl in *. by injection IHt.
Qed.

Lemma str_contains_at (s d : string) : str_contains "@" (s ++ "@" ++ d) = true.
Proof.
  unfold str_contains.
  destruct (index 0 "@" (s ++ "@" ++ d)) eqn:Hi; [done|].
  exfalso.
  apply (index_correct3 0 (String.length s) "@" (s ++ "@" ++ d) Hi); [done|lia|].
  clear Hi. induction s as [|a s IH]; simpl; [by destruct d|done].
Qed.

(** X15: [add_email_forward] and [delete_email_forward] complete a source
    address in the same way.  The address sent is the source itself when
    the source contains "@", and the source followed by "@" and the domain
    name when it does not; either way it contains "@".  Both tools send
    exactly that address with the domain name (and the destination, when
    adding), and calling either tool with the completed address is the
    same as calling it with the source. *)
Theorem email_forward_source (domain_name source destination : string)
    (reseller_id api_key : option string) :
  let sent :=
    if str_contains "@" source then source
    else source ++ "@" ++ domain_name in
  str_contains "@" sent = true
  ∧ add_email_forward w domain_name source destination reseller_id api_key
    = safe_soap_call w "addMailForward"
        (<["destinationEmail" := VStr destination]>
           (<["sourceEmail" := VStr sent]>
              (<["domainName" := VStr domain_name]> ∅)))
        reseller_id api_key
  ∧ delete_email_forward w domain_name source reseller_id api_key
    = safe_soap_call w "deleteMailForward"
        (<["sourceEmail" := VStr sent]>
           (<["domainName" := VStr domain_name]> ∅))
        reseller_id api_key
  ∧ add_email_forward w domain_name sent destination reseller_id api_key
    = add_email_forward w domain_name source destination reseller_id api_key
  ∧ delete_email_forward w domain_name sent reseller_id api_key
    = delete_email_forward w domain_name source reseller_id api_key.
Proof.
  intros sent. unfold sent, add_email_forward, delete_email_forward.
  destruct (str_contains "@" source) eqn:Hs; simpl.
  - by rewrite Hs.
  - by rewrite str_contains_at.
Qed.

End DNS.

(** ** get_transfer_status *)

(** X16: [get_transfer_status] on a mapping result.  A result that holds
    [error] is passed on unchanged.  Any other result is replaced by a
    mapping of exactly six fields: [domain], the name asked for, and
    [status], [transfer_status], [transfer_date], [current_registrar] and
    [locked], read from [status], [transferStatus], [transferDate],
    [registrar] and [locked], each [None] when the result lacks it; every
    other field of the result is dropped. *)
Theorem get_transfer_status_projection (w : world) (domain_name : string)
    (reseller_id api_key : option string) (st : state) (d : dict) (st' : state) :
  safe_soap_call w "domainInfo" {[ "domainName" := VStr domain_name ]}
                 reseller_id api_key st = (Returned (VDict d), st') →
  ∃ info,
    get_transfer_status w domain_name reseller_id api_key st
    = (Returned (VDict info), st')
    ∧ (is_Some (d !! "error") → info = d)
    ∧ (d !! "error" = None →
       dom info = {[ "domain"; "status"; "transfer_status"; "transfer_date";
                     "current_registrar"; "locked" ]}
       ∧ info !! "domain" = Some (VStr domain_name)
       ∧ info !! "status" = Some (default VNone (d !! "status"))
       ∧ info !! "transfer_status" = Some (default VNone (d !! "transferStatus"))
       ∧ info !! "transfer_date" = Some (default VNone (d !! "transferDate"))
       ∧ info !! "current_registrar" = Some (default VNone (d !! "registrar"))
       ∧ info !! "locked" = Some (default VNone (d !! "locked"))).
Proof.
  intros Hcall. unfold get_transfer_status.
  unfold mbind at 1, M_bind at 1. rewrite Hcall.
  unfold_M. simpl.
  destruct (d !! "error") as [x|] eqn:Herr; simpl.
  - exists d. split; [done|]. split; [done|]. intros ?. done.
  - eexists. split; [reflexivity|]. split; [by intros [? ?]|].
    intros _. split; [|by simplify_map_eq].
    rewrite !dom_insert_L, dom_empty_L. set_solver.
Qed.

Lemma get_transfer_status_projection_witness :
  ∃ info,
    get_transfer_status bare_world "example.com" (Some "A") (Some "B") initial_state
    = (Returned (VDict info),
       (safe_soap_call bare_world "domainInfo" {[ "domainName" := VStr "example.com" ]}
                       (Some "A") (Some "B") initial_state).2)
    ∧ (is_Some ((<["status" := VStr "OK"]> (<["balance" := VInt 100]> ∅) : dict)
                !! "error") →
       info = <["status" := VStr "OK"]> (<["balance" := VInt 100]> ∅))
    ∧ ((<["status" := VStr "OK"]> (<["balance" := VInt 100]> ∅) : dict) !! "error"
       = None →
       dom info = {[ "domain"; "status"; "transfer_status"; "transfer_date";
                     "current_registrar"; "locked" ]}
       ∧ info !! "domain" = Some (VStr "example.com")
       ∧ info !! "status"
         = Some (default VNone
                   ((<["status" := VStr "OK"]> (<["balance" := VInt 100]> ∅) : dict)
                    !! "status"))
       ∧ info !! "transfer_status"
         = Some (default VNone
                   ((<["status" := VStr "OK"]> (<["balance" := VInt 100]> ∅) : dict)
                    !! "transferStatus"))
       ∧ info !! "transfer_date"
         = Some (default VNone
                   ((<["status" := VStr "OK"]> (<["balance" := VInt 100]> ∅) : dict)
                    !! "transferDate"))
       ∧ info !! "current_registrar"
         = Some (default VNone
                   ((<["status" := VStr "OK"]> (<["balance" := VInt 100]> ∅) : dict)
                    !! "registrar"))
       ∧ info !! "locked"
         = Some (default VNone
                   ((<["status" := VStr "OK"]> (<["balance" := VInt 100]> ∅) : dict)
                    !! "locked"))).
Proof.
  apply (get_transfer_status_projection bare_world "example.com"
           (Some "A") (Some "B") initial_state).
  vm_compute. reflexivity.
Defined.

(** ** get_invoice_list *)

(** X17: [get_invoice_list] never refuses its arguments: it always makes
    one [getInvoiceList] request.  The year sent is the given year, or the
    current year when the year is missing or 0.  The month is sent exactly
    when it lies in 1..12; any other month is dropped without a word.  The
    request holds no other key. *)
Theorem get_invoice_list_defaults (w : world) (now_year : Z)
    (year month : option Z) (reseller_id api_key : option string) :
  let year_sent :=
    match year with
    | Some y => if (y =? 0)%Z then now_year else y
    | None => now_year
    end in
  let month_sent :=
    match month with
    | Some m => if (1 <=? m)%Z && (m <=? 12)%Z then Some (VInt m) else None
    | None => None
    end in
  ∃ params : dict,
    get_invoice_list w now_year year month reseller_id api_key
    = safe_soap_call w "getInvoiceList" params reseller_id api_key
    ∧ params !! "year" = Some (VInt year_sent)
    ∧ params !! "month" = month_sent
    ∧ ∀ k, k ≠ "year" → k ≠ "month" → params !! k = None.
Proof.
  intros year_sent month_sent. unfold get_invoice_list. eexists.
  split; [reflexivity|].
  set (p0 := match year with
             | Some y => if truthy_int year then {[ "year" := VInt y ]}
                         else {[ "year" := VInt now_year ]}
             | None => ({[ "year" := VInt now_year ]} : dict)
             end).
  assert (p0 = {[ "year" := VInt year_sent ]}) as ->.
  { unfold p0, year_sent. destruct year as [y|]; [|done]. simpl.
    by destruct (y =? 0)%Z. }
  destruct month as [m|]; simpl.
  - assert (negb (m =? 0)%Z && (1 <=? m)%Z && (m <=? 12)%Z
            = (1 <=? m)%Z && (m <=? 12)%Z) as ->.
    { destruct (1 <=? m)%Z eqn:H1; [|by rewrite andb_false_r].
      apply Z.leb_le in H1.
      assert ((m =? 0)%Z = false) as -> by (apply Z.eqb_neq; lia). done. }
    unfold month_sent.
    destruct ((1 <=? m)%Z && (m <=? 12)%Z).
    + split; [by simplify_map_eq|]. split; [by simplify_map_eq|].
      intros k ? ?. by simplify_map_eq.
    + split; [by simplify_map_eq|]. split; [by simplify_map_eq|].
      intros k ? ?. by simplify_map_eq.
  - split; [by simplify_map_eq|]. split; [by simplify_map_eq|].
    intros k ? ?. by simplify_map_eq.
Qed.

(** ** test_api_connectivity *)

Section Connectivity.
Context (w : world) (now : string) (reseller_id api_key : option string).

(** X18: [test_api_connectivity] never raises.  It returns a mapping whose
    [status] is "connected", "error" or "failed"; it makes at most two
    descriptor fetches; and it says "connected" only when the balance
    query came back without [error] and a client is stored. *)
Theorem test_api_connectivity_total (st : state) :
  ∃ d st',
    test_api_connectivity w now reseller_id api_key st = (Returned (VDict d), st')
    ∧ (d !! "status" = Some (VStr "connected")
       ∨ d !! "status" = Some (VStr "error")
       ∨ d !! "status" = Some (VStr "failed"))
    ∧ (fetches st ≤ fetches st' ≤ fetches st + 2)%nat
    ∧ (d !! "status" = Some (VStr "connected") →
       is_Some (soap_client st')
       ∧ ∃ result st1,
           safe_soap_call w "balanceQuery" ∅ reseller_id api_key st
           = (Returned result, st1)
           ∧ py_contains "error" result = Returned false).
Proof.
  unfold test_api_connectivity, try_except.
  unfold mbind at 1, M_bind at 1.
  destruct (safe_soap_call w "balanceQuery" ∅ reseller_id api_key st)
    as [r st1] eqn:Hcall.
  destruct (safe_soap_call_network _ _ _ _ _ _ _ _ Hcall) as (Hf1 & _).
  destruct (safe_soap_call_value_shape _ _ _ _ _ _ _ _ Hcall) as (res & -> & Hshape).
  destruct (py_contains_defined "error" res Hshape) as [b Hb].
  unfold mbind at 1, M_bind at 1, lift at 1. rewrite Hb.
  destruct b.
  - unfold mbind at 1, M_bind at 1, lift at 1.
    destruct (py_getitem res "error") as [message|e1].
    + unfold mbind at 1, M_bind at 1.
      destruct (get_soap_client w st1) as [[c|e2] st2] eqn:Hg;
        destruct (get_soap_client_spec _ _ _ _ Hg) as (_ & Hf2 & _);
        unfold mret, M_ret; eexists _, _; (split; [reflexivity|]);
        (split; [simplify_map_eq; auto|]); (split; [lia|]);
        intros Hs; by simplify_map_eq.
    + unfold mret, M_ret. eexists _, _. split; [reflexivity|].
      split; [simplify_map_eq; auto|]. split; [lia|].
      intros Hs. by simplify_map_eq.
  - unfold mbind at 1, M_bind at 1.
    destruct (get_soap_client w st1) as [[c|e2] st2] eqn:Hg;
      destruct (get_soap_client_spec _ _ _ _ Hg) as (_ & Hf2 & _ & Hstored & _).
    + unfold mbind at 1, M_bind at 1, lift at 1.
      destruct (py_get res "balance" VNone) as [balance|e3];
        unfold mret, M_ret; eexists _, _; (split; [reflexivity|]);
        (split; [simplify_map_eq; auto|]); (split; [lia|]).
      * intros _. split; [rewrite (Hstored c eq_refl); eauto|]. eauto.
      * intros Hs. by simplify_map_eq.
    + unfold mret, M_ret. eexists _, _. split; [reflexivity|].
      split; [simplify_map_eq; auto|]. split; [lia|].
      intros Hs. by simplify_map_eq.
Qed.

(** X19: when no client is stored and every descriptor fetch fails,
    [test_api_connectivity] attempts the fetch twice, once inside the
    balance query and once more to name the endpoint in its report, makes
    no round trip, and reports "failed" with the [ValueError] of the second
    attempt. *)
Theorem test_api_connectivity_unreachable (st : state) (timeout : Z) :
  soap_client st = None →
  py_int w (default "30" (getenv w "API_TIMEOUT")) = Returned timeout →
  (∀ n, ∃ e, fetch_wsdl w n timeout = Raised e) →
  ∃ d st' e,
    test_api_connectivity w now reseller_id api_key st = (Returned (VDict d), st')
    ∧ fetch_wsdl w (S (fetches st)) timeout = Raised e
    ∧ d !! "status" = Some (VStr "failed")
    ∧ d !! "error_type" = Some (VStr "ValueError")
    ∧ d !! "error" = Some (VStr ("Could not connect to Synergy Wholesale API: "
                                 ++ exn_str e))
    ∧ fetches st' = (fetches st + 2)%nat
    ∧ calls st' = calls st
    ∧ soap_client st' = None.
Proof.
  intros Hnone Hint Hfail.
  destruct (Hfail (fetches st)) as [e0 He0].
  destruct (Hfail (S (fetches st))) as [e1 He1].
  set (st1 := {| soap_client := None; fetches := S (fetches st); calls := calls st |}).
  assert (get_soap_client w st = (Raised (connect_error e0), st1)) as Hg0.
  { unfold get_soap_client. unfold mbind, M_bind, read_soap_client at 1.
    rewrite Hnone. unfold initialize_soap_client, new_Client. unfold_M.
    rewrite Hint. simpl. rewrite He0. simpl. unfold st1. by rewrite Hnone. }
  set (st2 := {| soap_client := None; fetches := S (S (fetches st));
                 calls := calls st |}).
  assert (get_soap_client w st1 = (Raised (connect_error e1), st2)) as Hg1.
  { unfold get_soap_client. unfold mbind, M_bind, read_soap_client at 1. simpl.
    unfold initialize_soap_client, new_Client. unfold_M.
    rewrite Hint. simpl. rewrite He1. done. }
  assert (safe_soap_call w "balanceQuery" ∅ reseller_id api_key st
          = (Returned (VDict (unexpected_envelope "balanceQuery" (connect_error e0))),
             st1)) as Hcall.
  { unfold safe_soap_call, try_except, safe_soap_call_body.
    unfold mbind at 1, M_bind at 1. by rewrite Hg0. }
  exists (<["suggestion" := VStr "Verify network connectivity and WSDL availability"]>
            (<["error_type" := VStr (exn_type_name (connect_error e1))]>
               (<["error" := VStr (exn_str (connect_error e1))]>
                  (<["status" := VStr "failed"]> ∅)))), st2, e1.
  split.
  - unfold test_api_connectivity, try_except.
    unfold mbind at 1, M_bind at 1. rewrite Hcall.
    unfold mbind at 1, M_bind at 1, lift at 1.
    assert (py_contains "error"
              (VDict (unexpected_envelope "balanceQuery" (connect_error e0)))
            = Returned true) as ->.
    { simpl. unfold unexpected_envelope. rewrite bool_decide_eq_true_2; [done|].
      by simplify_map_eq. }
    unfold mbind at 1, M_bind at 1, lift at 1.
    assert (py_getitem
              (VDict (unexpected_envelope "balanceQuery" (connect_error e0))) "error"
            = Returned (VStr (exn_str (connect_error e0)))) as ->.
    { simpl. unfold unexpected_envelope. by simplify_map_eq. }
    unfold mbind at 1, M_bind at 1. rewrite Hg1. reflexivity.
  - split; [done|]. split; [by simplify_map_eq|]. split; [by simplify_map_eq|].
    split; [by simplify_map_eq|]. split; [simpl; lia|]. done.
Qed.

End Connectivity.

Lemma test_api_connectivity_unreachable_witness :
  ∃ d st' e,
    test_api_connectivity dead_world "2024-01-01T00:00:00" None None initial_state
    = (Returned (VDict d), st')
    ∧ fetch_wsdl dead_world (S (fetches initial_state)) 30%Z = Raised e
    ∧ d !! "status" = Some (VStr "failed")
    ∧ d !! "error_type" = Some (VStr "ValueError")
    ∧ d !! "error" = Some (VStr ("Could not connect to Synergy Wholesale API: "
                                 ++ exn_str e))
    ∧ fetches st' = (fetches initial_state + 2)%nat
    ∧ calls st' = calls initial_state
    ∧ soap_client st' = None.
Proof.
  apply (test_api_connectivity_unreachable dead_world "2024-01-01T00:00:00"
           None None initial_state 30%Z).
  - reflexivity.
  - reflexivity.
  - intros n. eexists. reflexivity.
Defined.

(** ** Limits on lists *)

Section Limits.
Context (w : world) (reseller_id api_key : option string).

(** X20: [update_nameservers] takes between 2 and 6 nameservers, both
    bounds included.  Fewer than 2 or more than 6 are refused with an
    [error] mapping and nothing else happens; from 2 to 6 the whole list
    goes out in one call. *)
Theorem update_nameservers_bounds (domain_name : string) (nameservers : list string) :
  ((length nameservers < 2 ∨ 6 < length nameservers)%nat →
   ∀ st, update_nameservers w domain_name nameservers reseller_id api_key st
         = (Returned (error_result "Must provide between 2 and 6 nameservers"), st))
  ∧ ((2 ≤ length nameservers ≤ 6)%nat →
     update_nameservers w domain_name nameservers reseller_id api_key
     = safe_soap_call w "updateNameServers"
         (<["nameServers" := VList (VStr <$> nameservers)]>
            (<["domainName" := VStr domain_name]> ∅))
         reseller_id api_key).
Proof.
  unfold update_nameservers. split; intros H.
  - assert ((length nameservers <? 2)%nat || (6 <? length nameservers)%nat = true)
      as ->; [|done].
    apply orb_true_iff. destruct H; [left|right]; by apply Nat.ltb_lt.
  - assert ((length nameservers <? 2)%nat || (6 <? length nameservers)%nat = false)
      as ->; [|done].
    apply orb_false_iff. split; apply Nat.ltb_ge; lia.
Qed.

(** X21: the two list queries have an upper limit only: more than 30
    names for [bulk_check_domain], more than 50 for [bulk_domain_info],
    are refused before anything else happens.  A list within the limit,
    the empty list included, goes out whole in a single call, which
    makes at most two round trips however many names there are. *)
Theorem bulk_queries_limits (domain_names : list string) :
  ((30 < length domain_names)%nat →
   ∀ st, bulk_check_domain w domain_names reseller_id api_key st
         = (Returned (error_result "Maximum 30 domains can be checked at once"), st))
  ∧ ((50 < length domain_names)%nat →
     ∀ st, bulk_domain_info w domain_names reseller_id api_key st
           = (Returned (error_result "Maximum 50 domains can be queried at once"),
              st))
  ∧ ((length domain_names ≤ 30)%nat →
     bulk_check_domain w domain_names reseller_id api_key
     = safe_soap_call w "bulkCheckDomain"
         {[ "domainNameList" := VList (VStr <$> domain_names) ]}
         reseller_id api_key
     ∧ ∀ st r st',
         bulk_check_domain w domain_names reseller_id api_key st = (r, st') →
         (length (calls st') ≤ length (calls st) + 2)%nat)
  ∧ ((length domain_names ≤ 50)%nat →
     bulk_domain_info w domain_names reseller_id api_key
     = safe_soap_call w "bulkDomainInfo"
         {[ "domainNameList" := VList (VStr <$> domain_names) ]}
         reseller_id api_key
     ∧ ∀ st r st',
         bulk_domain_info w domain_names reseller_id api_key st = (r, st') →
         (length (calls st') ≤ length (calls st) + 2)%nat).
Proof.
  unfold bulk_check_domain, bulk_domain_info.
  split; [|split; [|split]]; intros H.
  - by rewrite (proj2 (Nat.ltb_lt _ _) H).
  - by rewrite (proj2 (Nat.ltb_lt _ _) H).
  - rewrite (proj2 (Nat.ltb_ge _ _) H). split; [done|].
    intros st r st' Hc.
    destruct (safe_soap_call_network _ _ _ _ _ _ _ _ Hc) as (_ & l & -> & ? & _).
    rewrite length_app. lia.
  - rewrite (proj2 (Nat.ltb_ge _ _) H). split; [done|].
    intros st r st' Hc.
    destruct (safe_soap_call_network _ _ _ _ _ _ _ _ Hc) as (_ & l & -> & ? & _).
    rewrite length_app. lia.
Qed.

End Limits.

(** ** update_contacts *)

Lemma optional_contact (k : string) (o : option dict) (params : dict) :
  params !! k = None →
  let params' :=
    match o with
    | Some c => if truthy_dict o then <[k := VDict c]> params else params
    | None => params
    end in
  (params' !! k = if truthy_dict o then VDict <$> o else None)
  ∧ (∀ j, j ≠ k → params' !! j = params !! j)
  ∧ size params' = (size params + if truthy_dict o then 1 else 0)%nat.
Proof.
  intros Hk. destruct o as [c|]; simpl; [|split; [done|]; split; [done|lia]].
  destruct (negb (bool_decide (c = ∅))); simpl;
    [|split; [done|]; split; [done|lia]].
  rewrite lookup_insert_eq. split; [done|]. split.
  - intros j Hj. by rewrite lookup_insert_ne.
  - rewrite map_size_insert_None by done. lia.
Qed.

(** X22: [update_contacts] refuses an update exactly when none of the four
    contacts is a non-empty mapping, and then nothing else happens: an
    empty mapping counts as no contact.  Otherwise one [updateContacts]
    request goes out that holds the domain name, each contact exactly when
    it is a non-empty mapping, and no other key. *)
Theorem update_contacts_refused_iff (w : world) (domain_name : string)
    (registrant technical admin billing : option dict)
    (reseller_id api_key : option string) :
  let refused :=
    ∀ st, update_contacts w domain_name registrant technical admin billing
            reseller_id api_key st
          = (Returned (error_result
                         "At least one contact must be provided for update"), st) in
  let sent :=
    ∃ params : dict,
      update_contacts w domain_name registrant technical admin billing
        reseller_id api_key
      = safe_soap_call w "updateContacts" params reseller_id api_key
      ∧ params !! "domainName" = Some (VStr domain_name)
      ∧ params !! "registrant_contact"
        = (if truthy_dict registrant then VDict <$> registrant else None)
      ∧ params !! "technical_contact"
        = (if truthy_dict technical then VDict <$> technical else None)
      ∧ params !! "admin_contact"
        = (if truthy_dict admin then VDict <$> admin else None)
      ∧ params !! "billing_contact"
        = (if truthy_dict billing then VDict <$> billing else None)
      ∧ ∀ k, k ≠ "domainName" → k ≠ "registrant_contact" →
             k ≠ "technical_contact" → k ≠ "admin_contact" →
             k ≠ "billing_contact" → params !! k = None in
  if truthy_dict registrant || truthy_dict technical
     || truthy_dict admin || truthy_dict billing
  then sent else refused.
Proof.
  unfold update_contacts.
  set (p0 := ({[ "domainName" := VStr domain_name ]} : dict)).
  assert (size p0 = 1%nat
          ∧ p0 !! "domainName" = Some (VStr domain_name)
          ∧ (∀ j, j ≠ "domainName" → p0 !! j = None)) as (H0 & Hd0 & Ho0).
  { unfold p0. split; [apply map_size_singleton|].
    split; [apply lookup_singleton_eq|].
    intros j Hj. by apply lookup_singleton_ne. }
  clearbody p0.
  destruct (optional_contact "registrant_contact" registrant p0)
    as (Hk1 & Ho1 & H1); [by apply Ho0|].
  set (p1 := match registrant with Some c => _ | None => _ end) in *. clearbody p1.
  destruct (optional_contact "technical_contact" technical p1)
    as (Hk2 & Ho2 & H2); [by rewrite Ho1, Ho0|].
  set (p2 := match technical with Some c => _ | None => _ end) in *. clearbody p2.
  destruct (optional_contact "admin_contact" admin p2)
    as (Hk3 & Ho3 & H3); [by rewrite Ho2, Ho1, Ho0|].
  set (p3 := match admin with Some c => _ | None => _ end) in *. clearbody p3.
  destruct (optional_contact "billing_contact" billing p3)
    as (Hk4 & Ho4 & H4); [by rewrite Ho3, Ho2, Ho1, Ho0|].
  set (p4 := match billing with Some c => _ | None => _ end) in *. clearbody p4.
  assert (p4 !! "domainName" = Some (VStr domain_name)
          ∧ p4 !! "registrant_contact"
            = (if truthy_dict registrant then VDict <$> registrant else None)
          ∧ p4 !! "technical_contact"
            = (if truthy_dict technical then VDict <$> technical else None)
          ∧ p4 !! "admin_contact"
            = (if truthy_dict admin then VDict <$> admin else None)
          ∧ p4 !! "billing_contact"
            = (if truthy_dict billing then VDict <$> billing else None)
          ∧ ∀ k, k ≠ "domainName" → k ≠ "registrant_contact" →
                 k ≠ "technical_contact" → k ≠ "admin_contact" →
                 k ≠ "billing_contact" → p4 !! k = None) as Hlook.
  { split; [by rewrite Ho4, Ho3, Ho2, Ho1|].
    split; [by rewrite Ho4, Ho3, Ho2|].
    split; [by rewrite Ho4, Ho3|].
    split; [by rewrite Ho4|].
    split; [done|].
    intros k ? ? ? ? ?. rewrite Ho4, Ho3, Ho2, Ho1 by done. by apply Ho0. }
  destruct (truthy_dict registrant || truthy_dict technical
            || truthy_dict admin || truthy_dict billing) eqn:Hany.
  - assert ((size p4 =? 1)%nat = false) as ->.
    { apply Nat.eqb_neq. intros Hsz.
      destruct (truthy_dict registrant), (truthy_dict technical),
        (truthy_dict admin), (truthy_dict billing);
        simpl in *; try discriminate Hany; lia. }
    exists p4. done.
  - repeat (apply orb_false_iff in Hany as [Hany ?]).
    assert ((size p4 =? 1)%nat = true) as ->; [|done].
    apply Nat.eqb_eq.
    destruct (truthy_dict registrant), (truthy_dict technical),
      (truthy_dict admin), (truthy_dict billing); simpl in *;
      try discriminate; lia.
Qed.

(** ** add_url_forward *)

(** X23: [add_url_forward] takes the forward types "301", "302" and
    "frame" and refuses every other string, in that very spelling, before
    anything else happens.  A title is sent only with a "frame" forward
    and only when it is not empty: for "301" and "302" the title has no
    effect, and for "frame" an empty title is the same as none. *)
Theorem add_url_forward_title (w : world)
    (domain_name subdomain destination_url forward_type : string)
    (reseller_id api_key : option string) :
  (is_forward_type forward_type = false →
   ∀ title st,
     add_url_forward w domain_name subdomain destination_url forward_type title
       reseller_id api_key st
     = (Returned (error_result "forward_type must be '301', '302', or 'frame'"),
        st))
  ∧ (forward_type = "301" ∨ forward_type = "302" →
     ∀ title1 title2,
       add_url_forward w domain_name subdomain destination_url forward_type title1
         reseller_id api_key
       = add_url_forward w domain_name subdomain destination_url forward_type title2
           reseller_id api_key)
  ∧ add_url_forward w domain_name subdomain destination_url "frame"
      (Some EmptyString) reseller_id api_key
    = add_url_forward w domain_name subdomain destination_url "frame" None
        reseller_id api_key.
Proof.
  split; [|split].
  - intros Ht title st. unfold add_url_forward. by rewrite Ht.
  - intros [-> | ->] [t1|] [t2|]; reflexivity.
  - reflexivity.
Qed.

(** ** Transfers *)

(** X24: in the transfer tools a value that Python counts as false is the
    same as a value left out: [transfer_domain] with 0 years is the call
    without [years], and [is_domain_transferrable] with an empty
    authorisation code is the call without [authCode].  Privacy is sent
    as [idProtection] "on" when asked for and is absent otherwise. *)
Theorem transfer_optional_fields (w : world) (domain_name auth_code : string)
    (id_protection : bool) (reseller_id api_key : option string) :
  transfer_domain w domain_name auth_code (Some 0%Z) id_protection
    reseller_id api_key
  = transfer_domain w domain_name auth_code None id_protection reseller_id api_key
  ∧ is_domain_transferrable w domain_name (Some EmptyString) reseller_id api_key
    = is_domain_transferrable w domain_name None reseller_id api_key
  ∧ (∀ years, ∃ params : dict,
       transfer_domain w domain_name auth_code years id_protection
         reseller_id api_key
       = safe_soap_call w "transferDomain" params reseller_id api_key
       ∧ params !! "idProtection"
         = (if id_protection then Some (VStr "on") else None)
       ∧ params !! "years"
         = (if truthy_int years then VInt <$> years else None)
       ∧ params !! "authCode" = Some (VStr auth_code)
       ∧ params !! "domainName" = Some (VStr domain_name)).
Proof.
  split; [reflexivity|]. split; [reflexivity|].
  intros years. unfold transfer_domain. eexists. split; [reflexivity|].
  destruct years as [y|]; simpl; [destruct (negb (y =? 0)%Z)|];
    destruct id_protection; by simplify_map_eq.
Qed.

(** ** Sample runs *)

Lemma add_dns_record_priority_witness :
  is_MX_or_SRV (upper_ascii "mx") = true
  ∧ add_dns_record bare_world upper_ascii "example.com" "mx" "@" "mail.example.com"
      3600 None (Some "A") (Some "B") initial_state
    = (Returned (error_result "Priority is required for mx records"), initial_state).
Proof.
  split; [reflexivity|].
  exact (proj2 (proj2 (add_dns_record_priority bare_world upper_ascii "example.com"
                         "mx" "@" "mail.example.com" 3600 (Some "A") (Some "B"))
                  eq_refl) initial_state).
Defined.

Lemma update_nameservers_bounds_witness :
  update_nameservers bare_world "example.com" ["ns1.example.net"] None None
    initial_state
  = (Returned (error_result "Must provide between 2 and 6 nameservers"),
     initial_state)
  ∧ update_nameservers bare_world "example.com"
      ["ns1.example.net"; "ns2.example.net"] None None
    = safe_soap_call bare_world "updateNameServers"
        (<["nameServers" := VList (VStr <$> ["ns1.example.net"; "ns2.example.net"])]>
           (<["domainName" := VStr "example.com"]> ∅))
        None None.
Proof.
  split.
  - apply (proj1 (update_nameservers_bounds bare_world None None "example.com"
                    ["ns1.example.net"])).
    left. simpl. lia.
  - apply (proj2 (update_nameservers_bounds bare_world None None "example.com"
                    ["ns1.example.net"; "ns2.example.net"])).
    simpl. lia.
Defined.

Lemma bulk_queries_limits_witness :
  bulk_check_domain bare_world (replicate 31 "example.com") None None initial_state
  = (Returned (error_result "Maximum 30 domains can be checked at once"),
     initial_state)
  ∧ bulk_check_domain bare_world [] None None
    = safe_soap_call bare_world "bulkCheckDomain"
        {[ "domainNameList" := VList (VStr <$> []) ]} None None.
Proof.
  split.
  - apply (proj1 (bulk_queries_limits bare_world None None
                    (replicate 31 "example.com"))).
    rewrite length_replicate. lia.
  - refine (proj1 (proj1 (proj2 (proj2 (bulk_queries_limits bare_world None None [])))
                     _)).
    simpl. lia.
Defined.

Lemma add_url_forward_title_witness :
  add_url_forward bare_world "example.com" "www" "https://example.org" "303"
    (Some "Home") None None initial_state
  = (Returned (error_result "forward_type must be '301', '302', or 'frame'"),
     initial_state)
  ∧ add_url_forward bare_world "example.com" "www" "https://example.org" "301"
      (Some "Home") None None
    = add_url_forward bare_world "example.com" "www" "https://example.org" "301"
        None None None.
Proof.
  split.
  - apply (proj1 (add_url_forward_title bare_world "example.com" "www"
                    "https://example.org" "303" None None)).
    reflexivity.
  - apply (proj1 (proj2 (add_url_forward_title bare_world "example.com" "www"
                           "https://example.org" "301" None None))).
    by left.
Defined.
